(** * Feature elimination in the nutritional-data notebook

    A shallow embedding of the Python functions of the notebook
    "Exploring a Multimodal Nutritional Data Set": [load_dataset],
    [impute_dataset], [remove_redundant_features], [preprocess_dataset],
    [random_forest_fit_predict], [avg_random_forest_fit_predict],
    [multisplit_avg_random_forest_fit_predict], [drop_feature_experiment]
    and [avg_drop_feature_experiment].

    Conventions.
    - Python floats are idealised as rationals ([Q]); a Python number is a
      [pynum], which keeps the int/float distinction that decides what
      [/] does on a zero divisor.
    - A raised exception is the [Raise] outcome of a [result].
    - pandas, numpy and scikit-learn are not part of the notebook.  Their
      pure operations used by the code ([median], [fillna], [replace],
      [drop], [np.zeros], [np.argmin], ...) are written out after their
      documentation; the CSV reader, the splitter and the random forest are
      fields of the class [Library].
    - The global random state and the history of the calls into the
      library (with what was printed) form the [World] that every
      effectful function threads. *)

From Stdlib Require Import QArith Qround Qabs ZArith.
From stdpp Require Import gmap strings list sorting.
From Equations Require Import Equations.


(** ** Exceptions and results *)

Inductive exn : Type :=
| ZeroDivisionError
| ValueError
| KeyError
| IndexError
| AttributeError
| TypeError
| OSError.

Inductive result (A : Type) : Type :=
| Ok (a : A)
| Raise (e : exn).
Arguments Ok {A} a.
Arguments Raise {A} e.

#[export] Instance result_ret : MRet result := λ A a, Ok a.
#[export] Instance result_bind : MBind result := λ A B f r,
  match r with
  | Ok a => f a
  | Raise e => Raise e
  end.

(** ** Tables *)

(** A cell of a data frame: a number, a string, or the missing-value
    marker (NaN, [pd.NA]). *)
Inductive cell : Type :=
| Num (q : Q)
| Str (s : string)
| NA.

Definition is_na (c : cell) : bool :=
  match c with NA => true | _ => false end.

Definition is_str (c : cell) : bool :=
  match c with Str _ => true | _ => false end.

Definition cell_eqb (a b : cell) : bool :=
  match a, b with
  | Num x, Num y => Qeq_bool x y
  | Str s, Str t => bool_decide (s = t)
  | _, _ => false
  end.

(** A series is a column of cells; a data frame is the ordered list of its
    named columns (row labels are the default 0..n-1 and are left out). *)
Abbreviation Series := (list cell).
Abbreviation DataFrame := (list (string * list cell)).

(** [df.columns.tolist()] *)
Definition columns {A : Type} (df : list (string * A)) : list string := df.*1.

(** Label lookup, first match. *)
Fixpoint assoc {A : Type} (k : string) (l : list (string * A)) : option A :=
  match l with
  | [] => None
  | (k', v) :: l' => if decide (k = k') then Some v else assoc k l'
  end.

(** ** Median imputation *)

Definition non_missing (col : Series) : list Q :=
  omap (λ c, match c with Num q => Some q | _ => None end) col.

Fixpoint insert_sorted (x : Q) (l : list Q) : list Q :=
  match l with
  | [] => [x]
  | y :: l' => if Qle_bool x y then x :: l else y :: insert_sorted x l'
  end.

Definition sort_values (l : list Q) : list Q := foldr insert_sorted [] l.

(** Median of the available values: the middle one of the sorted values,
    the mean of the two middle ones when their number is even, NaN when
    there is none. *)
Definition median_of (vs : list Q) : cell :=
  let s := sort_values vs in
  let n := length s in
  if decide (n = 0) then NA
  else if Nat.odd n then Num (nth (n / 2) s 0%Q)
  else Num ((nth (n / 2 - 1) s 0%Q + nth (n / 2) s 0%Q) / 2)%Q.

(** [Series.median()] (skipna): a column holding a string has no median. *)
Definition series_median (col : Series) : result cell :=
  if existsb is_str col then Raise TypeError
  else Ok (median_of (non_missing col)).

(** [DataFrame.median()]: a series indexed by the column labels. *)
Fixpoint df_median (df : DataFrame) : result (list (string * cell)) :=
  match df with
  | [] => Ok []
  | (name, col) :: df' =>
      m ← series_median col;
      ms ← df_median df';
      Ok ((name, m) :: ms)
  end.

Definition fill_cell (v : option cell) (c : cell) : cell :=
  match c with
  | NA => match v with Some x => x | None => NA end
  | _ => c
  end.

(** [DataFrame.fillna(value)] with a series [value]: a missing cell of
    column [name] takes [value[name]]; a column without an entry in
    [value] is not filled. *)
Definition fillna (df : DataFrame) (value : list (string * cell)) : DataFrame :=
  map (λ '(name, col), (name, map (fill_cell (assoc name value)) col)) df.

(** [def impute_dataset(dataset): return dataset.fillna(dataset.median())] *)
Definition impute_dataset (dataset : DataFrame) : result DataFrame :=
  m ← df_median dataset;
  Ok (fillna dataset m).

(** [DataFrame.replace(to_replace, value)]: a new frame; the receiver is
    left as it is. *)
Definition df_replace (to_replace value : cell) (df : DataFrame) : DataFrame :=
  map (λ '(name, col),
         (name, map (λ c, if cell_eqb c to_replace then value else c) col)) df.

(** ** Removal of the redundant columns *)

Definition redundant_features : list string :=
  [ "arterial_stiffness"; "waist_hip_ratio"; "diet_energy";
    "diet_mediterenian_score"; "blood_pressure_systolic"; "diet_carb";
    "diet_unsaturated_fat"; "blood_ldl_cholesterol"; "blood_hdl_cholesterol";
    "ldl_cholesterin_reduction" ]%string.

(** [DataFrame.drop(labels, axis=1)]: KeyError when a label is no column. *)
Definition df_drop (labels : list string) (df : DataFrame) : result DataFrame :=
  if forallb (λ l, bool_decide (l ∈ columns df)) labels
  then Ok (filter (λ c, c.1 ∉ labels) df)
  else Raise KeyError.

Definition remove_redundant_features (dataset : DataFrame)
  : result (Series * DataFrame) :=
  labels ← match assoc "ldl_cholesterin_reduction"%string dataset with
           | Some col => Ok col
           | None => Raise AttributeError
           end;
  dataset_wo_redundancy ← df_drop redundant_features dataset;
  Ok (labels, dataset_wo_redundancy).

(** ** Numbers *)

(** A Python number.  The running totals of the averaging functions start
    as the int [0] and become floats once a score is added. *)
Inductive pynum : Type :=
| PyInt (z : Z)
| PyFloat (q : Q).

Definition to_Q (a : pynum) : Q :=
  match a with
  | PyInt z => inject_Z z
  | PyFloat q => q
  end.

Definition py_add (a b : pynum) : pynum :=
  match a, b with
  | PyInt x, PyInt y => PyInt (x + y)
  | _, _ => PyFloat (to_Q a + to_Q b)
  end.

Definition py_is_zero (a : pynum) : bool :=
  match a with
  | PyInt z => bool_decide (z = 0%Z)
  | PyFloat q => Qeq_bool q 0
  end.

(** [a / b] on Python numbers: true division, ZeroDivisionError on a zero
    divisor. *)
Definition py_truediv (a b : pynum) : result pynum :=
  if py_is_zero b then Raise ZeroDivisionError
  else Ok (PyFloat (to_Q a / to_Q b)).

(** One-dimensional float arrays. *)
Definition np_zeros (n : nat) : list Q := replicate n 0%Q.

(** [a += b] for an array [a] and a list [b]: element-wise when the
    lengths agree, [b] broadcast when it has one element, ValueError
    otherwise. *)
Definition np_iadd (a b : list Q) : result (list Q) :=
  if decide (length b = length a) then Ok (zip_with Qplus a b)
  else match b with
       | [x] => Ok (map (λ y, y + x)%Q a)
       | _ => Raise ValueError
       end.

(** [a / n] for an array [a] and an int [n].  The callers reach it only
    after [py_truediv] by the same [n] has succeeded, so [n] is not zero
    here. *)
Definition np_truediv (a : list Q) (n : Z) : list Q :=
  map (λ x, x / inject_Z n)%Q a.

Fixpoint argmin_from (best_i : nat) (best : Q) (i : nat) (l : list Q) : nat :=
  match l with
  | [] => best_i
  | x :: l' =>
      if Qle_bool best x then argmin_from best_i best (S i) l'
      else argmin_from i x (S i) l'
  end.

(** [np.argmin]: the index of the first occurrence of the minimum;
    ValueError on an empty sequence. *)
Definition np_argmin (l : list Q) : result nat :=
  match l with
  | [] => Raise ValueError
  | x :: l' => Ok (argmin_from 0 x 1 l')
  end.

(** The one-column frame
    [pd.DataFrame(data={"feature_importance": data}, index=index)];
    ValueError when the lengths differ. *)
Record ImportanceFrame : Type := {
  index : list string;
  feature_importance : list Q
}.

Definition importance_frame (data : list Q) (idx : list string)
  : result ImportanceFrame :=
  if decide (length data = length idx)
  then Ok {| index := idx; feature_importance := data |}
  else Raise ValueError.

(** ** Python lists and dicts *)

(** [l[i]] *)
Definition list_getitem (l : list string) (i : nat) : result string :=
  match l !! i with
  | Some x => Ok x
  | None => Raise IndexError
  end.

(** [l.remove(x)]: removes the first occurrence, ValueError when there is
    none. *)
Fixpoint list_remove (x : string) (l : list string) : result (list string) :=
  match l with
  | [] => Raise ValueError
  | y :: l' =>
      if decide (x = y) then Ok l'
      else l'' ← list_remove x l'; Ok (y :: l'')
  end.

(** [d[k].append(v)] *)
Definition dict_append (d : gmap string (list nat)) (k : string) (v : nat)
  : result (gmap string (list nat)) :=
  match d !! k with
  | Some l => Ok (<[k := l ++ [v]]> d)
  | None => Raise KeyError
  end.

(** [df[names]]: the columns called [names], in that order; KeyError when
    one is missing. *)
Fixpoint select_columns (df : DataFrame) (names : list string)
  : result DataFrame :=
  match names with
  | [] => Ok []
  | n :: names' =>
      col ← match assoc n df with
            | Some col => Ok col
            | None => Raise KeyError
            end;
      rest ← select_columns df names';
      Ok ((n, col) :: rest)
  end.

(** ** The outside world *)

(** What the notebook calls but does not define: the CSV reader, the
    splitter and the random forest of the libraries, and the three blanks
    the notebook leaves to the student ([standardize_dataset], the training
    of the forest, the validation loss). *)
Class Library : Type := {
  (** global random state of numpy *)
  rng : Type;
  (** a fitted [RandomForestRegressor] *)
  forest : Type;
  (** [pd.read_csv] *)
  read_csv : string → result DataFrame;
  (** the body of [standardize_dataset], left blank *)
  standardize_dataset : DataFrame → DataFrame;
  (** [train_test_split(X, y, test_size)] *)
  sk_train_test_split :
    rng → DataFrame → Series → Q →
    (DataFrame * DataFrame * Series * Series) * rng;
  (** the training statement of [random_forest_fit_predict], left blank *)
  rf_fit : rng → DataFrame → Series → Z → Z → forest * rng;
  (** [random_forest.score(X, y)] *)
  rf_score : forest → DataFrame → Series → Q;
  (** the validation loss of [random_forest_fit_predict], left blank *)
  rf_validation_loss : forest → DataFrame → Series → Q;
  (** [random_forest.feature_importances_] *)
  rf_feature_importances : forest → list Q
}.

(** What the libraries promise and the code relies on: a split keeps the
    columns of the frame it splits, and a fitted forest has one importance
    per column of its training frame. *)
Class LibraryContract (L : Library) : Prop := {
  split_columns : ∀ g X y ts,
    columns (sk_train_test_split g X y ts).1.1.1.1 = columns X;
  importances_length : ∀ g X y n d,
    length (rf_feature_importances (rf_fit g X y n d).1) = length X
}.

Inductive line : Type :=
| ExperimentLine (i n_runs : Z)
| RoundLine (features_left : nat) (training_loss validation_loss : pynum)
            (eliminated : string).

Abbreviation Partition := (list (string * list cell) * list (string * list cell)
                           * list cell * list cell)%type.

(** The calls into the library and the lines printed, oldest first. *)
Inductive event : Type :=
| EvSplit (X : DataFrame) (y : Series) (out : Partition)
| EvFit (p : Partition) (n_estimators max_depth : Z)
| EvPrint (l : line).

Section Notebook.
Context {L : Library}.

Record World : Type := {
  random_state : rng;
  history : list event
}.

(** Effectful code: a function of the world that returns a value and the
    next world, or raises. *)
Definition M (A : Type) : Type := World → result (A * World).

#[export] Instance M_ret : MRet M := λ A a w, Ok (a, w).
#[export] Instance M_bind : MBind M := λ A B f c w,
  match c w with
  | Ok (a, w') => f a w'
  | Raise e => Raise e
  end.

Definition liftR {A : Type} (r : result A) : M A := λ w,
  match r with
  | Ok a => Ok (a, w)
  | Raise e => Raise e
  end.

Definition log (e : event) : M unit := λ w,
  Ok ((), {| random_state := random_state w; history := history w ++ [e] |}).

(** [print(...)] *)
Definition print (l : line) : M unit := log (EvPrint l).

(** [train_test_split(X, y, test_size=ts)], drawing from the global random
    state. *)
Definition train_test_split (X : DataFrame) (y : Series) (ts : Q)
  : M Partition := λ w,
  let '(out, g) := sk_train_test_split (random_state w) X y ts in
  Ok (out, {| random_state := g; history := history w ++ [EvSplit X y out] |}).

(** The training of the forest on the training part of a partition. *)
Definition fit_forest (p : Partition) (n_estimators max_depth : Z)
  : M forest := λ w,
  let '(X_train, X_test, y_train, y_test) := p in
  let '(f, g) := rf_fit (random_state w) X_train y_train n_estimators max_depth in
  Ok (f, {| random_state := g;
            history := history w ++ [EvFit p n_estimators max_depth] |}).

(** [for _ in range(n): s = body(s)] *)
Fixpoint for_range {St : Type} (n : nat) (body : St → M St) (s : St)
  : M St :=
  match n with
  | 0 => mret s
  | S n' => s' ← body s; for_range n' body s'
  end.

(** ** Loading *)

Definition load_dataset (file_path : string) : M DataFrame :=
  df ← liftR (read_csv file_path);
  let _ := df_replace (Str "NA") NA df in
  mret df.

Definition preprocess_dataset (dataset : DataFrame)
  : result (Series * DataFrame) :=
  dataset_imputed ← impute_dataset dataset;
  let dataset_standardized := standardize_dataset dataset_imputed in
  remove_redundant_features dataset_standardized.

(** ** Single fit *)

Definition random_forest_fit_predict
    (X_train X_test : DataFrame) (y_train y_test : Series)
    (n_estimators max_depth : Z)
  : M (pynum * pynum * ImportanceFrame) :=
  random_forest ← fit_forest (X_train, X_test, y_train, y_test)
                             n_estimators max_depth;
  let training_loss := PyFloat (rf_score random_forest X_train y_train) in
  let validation_loss :=
    PyFloat (rf_validation_loss random_forest X_test y_test) in
  feature_importances ←
    liftR (importance_frame (rf_feature_importances random_forest)
                            (columns X_train));
  mret (training_loss, validation_loss, feature_importances).

(** ** Averaging over repeated fits *)

Definition avg_random_forest_fit_predict
    (X_train X_test : DataFrame) (y_train y_test : Series)
    (n_estimators max_depth n_iterations : Z)
  : M (pynum * pynum * ImportanceFrame) :=
  let total_training_loss := PyInt 0 in
  let total_validation_loss := PyInt 0 in
  let total_feature_importances := np_zeros (length X_train) in
  '(total_training_loss, total_validation_loss, total_feature_importances) ←
    for_range (Z.to_nat n_iterations)
      (λ '(total_training_loss, total_validation_loss,
           total_feature_importances),
         '(training_loss, validation_loss, feature_importances) ←
           random_forest_fit_predict X_train X_test y_train y_test
                                     n_estimators max_depth;
         let total_training_loss := py_add total_training_loss training_loss in
         let total_validation_loss :=
           py_add total_validation_loss validation_loss in
         total_feature_importances ←
           liftR (np_iadd total_feature_importances
                          (feature_importance feature_importances));
         mret (total_training_loss, total_validation_loss,
               total_feature_importances))
      (total_training_loss, total_validation_loss, total_feature_importances);
  avg_training_loss ←
    liftR (py_truediv total_training_loss (PyInt n_iterations));
  avg_validation_loss ←
    liftR (py_truediv total_validation_loss (PyInt n_iterations));
  let avg_feature_importances :=
    np_truediv total_feature_importances n_iterations in
  avg_frame ← liftR (importance_frame avg_feature_importances (columns X_train));
  mret (avg_training_loss, avg_validation_loss, avg_frame).

(** ** Averaging over repeated splits *)

Definition multisplit_avg_random_forest_fit_predict
    (X_train : DataFrame) (y_train : Series)
    (n_estimators max_depth n_forest_iterations n_dataset_iterations : Z)
  : M (pynum * pynum * ImportanceFrame) :=
  let total_training_loss := PyInt 0 in
  let total_validation_loss := PyInt 0 in
  let total_feature_importances := np_zeros (length X_train) in
  '(total_training_loss, total_validation_loss, total_feature_importances) ←
    for_range (Z.to_nat n_dataset_iterations)
      (λ '(total_training_loss, total_validation_loss,
           total_feature_importances),
         '(X_train_local, X_val_local, y_train_local, y_val_local) ←
           train_test_split X_train y_train (1 # 5);
         '(training_loss, validation_loss, feature_importances) ←
           avg_random_forest_fit_predict
             X_train_local X_val_local y_train_local y_val_local
             n_estimators max_depth n_forest_iterations;
         let total_training_loss := py_add total_training_loss training_loss in
         let total_validation_loss :=
           py_add total_validation_loss validation_loss in
         total_feature_importances ←
           liftR (np_iadd total_feature_importances
                          (feature_importance feature_importances));
         mret (total_training_loss, total_validation_loss,
               total_feature_importances))
      (total_training_loss, total_validation_loss, total_feature_importances);
  avg_training_loss ←
    liftR (py_truediv total_training_loss (PyInt n_dataset_iterations));
  avg_validation_loss ←
    liftR (py_truediv total_validation_loss (PyInt n_dataset_iterations));
  let avg_feature_importances :=
    np_truediv total_feature_importances n_dataset_iterations in
  avg_frame ← liftR (importance_frame avg_feature_importances (columns X_train));
  mret (avg_training_loss, avg_validation_loss, avg_frame).

(** ** The elimination loop *)

(** The variables the [while] loop of [drop_feature_experiment] updates.
    Every tuple appended to [results] holds, as its third component, the
    one list object [feature_names] itself; the two losses are kept
    here. *)
Record LoopState : Type := {
  results : list (pynum * pynum);
  feature_names : list string;
  feature_drop_iterations : gmap string (list nat)
}.

(** The body of the [while] loop.  [np.argmin] of the one-column frame is
    the argmin of its values, which stand in the order of the active
    names. *)
Definition elimination_round (X_train : DataFrame) (y_train : Series)
    (st : LoopState) : M LoopState :=
  X_active ← liftR (select_columns X_train (feature_names st));
  '(training_loss, validation_loss, feature_importances) ←
    multisplit_avg_random_forest_fit_predict X_active y_train 20 1 5 5;
  let results := results st ++ [(training_loss, validation_loss)] in
  i ← liftR (np_argmin (feature_importance feature_importances));
  least_important_feature ← liftR (list_getitem (feature_names st) i);
  feature_names ← liftR (list_remove least_important_feature (feature_names st));
  feature_drop_iterations ←
    liftR (dict_append (feature_drop_iterations st) least_important_feature
                       (length feature_names));
  _ ← print (RoundLine (length feature_names) training_loss validation_loss
                       least_important_feature);
  mret {| results := results;
          feature_names := feature_names;
          feature_drop_iterations := feature_drop_iterations |}.

Definition inspect {A : Type} (a : A) : {b : A | a = b} := a ↾ eq_refl.

(** [while len(feature_names) >= 1: ...]; every round that returns has
    removed one name, so the loop is defined by recursion on the number of
    names. *)
Equations? while_rounds (X_train : DataFrame) (y_train : Series)
    (st : LoopState) (w : World) : result (LoopState * World)
    by wf (length (feature_names st)) lt :=
  while_rounds X_train y_train st w with inspect (feature_names st) := {
    | [] ↾ _ => Ok (st, w)
    | (_ :: _) ↾ _ with inspect (elimination_round X_train y_train st w) := {
        | Ok (st', w') ↾ Hround => while_rounds X_train y_train st' w'
        | Raise e ↾ _ => Raise e
      }
  }.
Proof.
  clear while_rounds.
  assert (Hrm : ∀ x l l', list_remove x l = Ok l' → length l = S (length l')).
  { clear. intros x l. induction l as [|y l IH]; intros l' H; simpl in H.
    - discriminate.
    - destruct (decide (x = y)).
      + by inversion H.
      + destruct (list_remove x l) as [l''|]; simpl in H; [|discriminate].
        inversion H. simpl. f_equal. by apply IH. }
  unfold elimination_round, mbind, M_bind, liftR, print, log in Hround.
  repeat match type of Hround with
         | context [match ?r with Ok _ => _ | Raise _ => _ end] =>
             destruct r as [?|?] eqn:?; simplify_eq/=
         | context [let '(_, _) := ?p in _] => destruct p; simplify_eq/=
         end.
  unfold mret, M_ret in Hround. simplify_eq/=.
  match goal with
  | H : list_remove _ _ = Ok _ |- _ => apply Hrm in H; lia
  end.
Qed.

(** Lines 766-796 of the notebook: the loop over the columns of the
    training frame. *)
Definition elimination_loop (X_train : DataFrame) (y_train : Series)
  : M (gmap string (list nat)) :=
  st ← while_rounds X_train y_train
         {| results := [];
            feature_names := columns X_train;
            feature_drop_iterations :=
              list_to_map ((λ feature, (feature, [])) <$> columns X_train) |};
  mret (feature_drop_iterations st).

Definition drop_feature_experiment : M (gmap string (list nat)) :=
  dataset ← load_dataset "responder.csv";
  '(labels, dataset_preprocessed) ← liftR (preprocess_dataset dataset);
  '(X_train, X_test, y_train, y_test) ←
    train_test_split dataset_preprocessed labels (1 # 5);
  elimination_loop X_train y_train.

(** ** Repeated elimination *)

(** [for feature, iteration in curr.items(): ...] on one item.  The keys
    of a dict are distinct, so the order of the items does not matter for
    the result.  The list stored for a new key is the list object of the
    run's own record, which nothing reads after the run: later [extend]s
    are seen through [feature_drop_counts] only. *)
Definition merge_item (feature_drop_counts : gmap string (list nat))
    (item : string * list nat) : gmap string (list nat) :=
  let '(feature, iteration) := item in
  match feature_drop_counts !! feature with
  | Some l => <[feature := l ++ iteration]> feature_drop_counts
  | None => <[feature := iteration]> feature_drop_counts
  end.

Definition avg_drop_feature_experiment (n_runs : Z)
  : M (gmap string (list nat)) :=
  let feature_drop_counts : gmap string (list nat) := ∅ in
  '(_, feature_drop_counts) ←
    for_range (Z.to_nat n_runs)
      (λ '(i, feature_drop_counts),
         _ ← print (ExperimentLine (i + 1) n_runs);
         curr_feature_drop_iterations ← drop_feature_experiment;
         mret ((i + 1)%Z,
               foldl merge_item feature_drop_counts
                     (map_to_list curr_feature_drop_iterations)))
      (0%Z, feature_drop_counts);
  mret feature_drop_counts.

End Notebook.

(** ** Vocabulary of the statements *)

(** A table without strings. *)
Definition numeric (df : DataFrame) : bool :=
  forallb (λ c : string * list cell, negb (existsb is_str c.2)) df.

(** The events of one pass of the loop of
    [multisplit_avg_random_forest_fit_predict]: a split of [(X, y)] that
    returned [p], then [n_forest] fits on [p]. *)
Definition split_block (X : DataFrame) (y : Series)
    (n_estimators max_depth : Z) (n_forest : nat) (p : Partition)
  : list event :=
  EvSplit X y p :: replicate n_forest (EvFit p n_estimators max_depth).

(** The partitions returned by the splits of a trace, and the partitions
    the fits of a trace were run on. *)
Definition split_outputs (tr : list event) : list Partition :=
  omap (λ e, match e with EvSplit _ _ p => Some p | _ => None end) tr.

Definition split_inputs (tr : list event) : list DataFrame :=
  omap (λ e, match e with EvSplit X _ _ => Some X | _ => None end) tr.

Definition fit_inputs (tr : list event) : list Partition :=
  omap (λ e, match e with EvFit p _ _ => Some p | _ => None end) tr.

(** The round lines of a trace: features left and feature eliminated. *)
Definition round_lines (tr : list event) : list (nat * string) :=
  omap (λ e, match e with
             | EvPrint (RoundLine n _ _ f) => Some (n, f)
             | _ => None
             end) tr.

(** What happened in one round of the elimination loop: the frame of the
    active columns, the partitions of its splits, the averaged losses and
    the feature dropped. *)
Record RoundInfo : Type := {
  r_active : DataFrame;
  r_parts : list Partition;
  r_losses : pynum * pynum;
  r_dropped : string
}.

(** The number recorded in a round: the active features left after the
    removal. *)
Definition remaining (r : RoundInfo) : nat := length (r_active r) - 1.

Definition round_trace (y : Series) (r : RoundInfo) : list event :=
  (r_parts r ≫= split_block (r_active r) y 20 1 5)
  ++ [EvPrint (RoundLine (remaining r) (r_losses r).1 (r_losses r).2
                         (r_dropped r))].

Definition record_drop (d : gmap string (list nat)) (r : RoundInfo)
  : gmap string (list nat) :=
  alter (λ l, l ++ [remaining r]) (r_dropped r) d.

(** [rounds_spec X names rs]: starting from the active list [names], the
    rounds [rs] each work on the active columns of [X], split five times
    and drop one active name, until no name is left. *)
Inductive rounds_spec (X : DataFrame)
  : list string → list RoundInfo → Prop :=
| rounds_done : rounds_spec X [] []
| rounds_step (names : list string) (r : RoundInfo) (rs : list RoundInfo)
    (i : nat) :
    select_columns X names = Ok (r_active r) →
    length (r_parts r) = 5 →
    names !! i = Some (r_dropped r) →
    rounds_spec X (delete i names) rs →
    rounds_spec X names (r :: rs).

(** All the numbers recorded in a drop record. *)
Definition recorded (d : gmap string (list nat)) : list nat :=
  mjoin (map_to_list d).*2.

(** At least: the order of a descending sort. *)
Definition at_least (a b : nat) : Prop := b ≤ a.

#[export] Instance at_least_dec (a b : nat) : Decision (at_least a b).
Proof. unfold at_least. apply _. Defined.

#[export] Instance at_least_total : Total at_least.
Proof. intros a b. unfold at_least. lia. Qed.

#[export] Instance at_least_trans : Transitive at_least.
Proof. intros a b c. unfold at_least. lia. Qed.

#[export] Instance at_least_antisymm : AntiSymm (=) at_least.
Proof. intros a b. unfold at_least. lia. Qed.

Definition sort_descending (l : list nat) : list nat := merge_sort at_least l.

(** The drop record of the rounds [rs]: each dropped feature with the one
    number recorded for it. *)
Definition drop_record (rs : list RoundInfo) : gmap string (list nat) :=
  list_to_map ((λ r, (r_dropped r, [remaining r])) <$> rs).

(** The claim that a run re-splits once: after the train/test split that
    opens [drop_feature_experiment] the trace holds one more split, and
    every fit of the run is on the partition it returned. *)
Definition resplit_once (tr : list event) : Prop :=
  ∃ p : Partition,
    drop 1 (split_outputs tr) = [p] ∧ ∀ q, q ∈ fit_inputs tr → q = p.

(** The sequence a feature has in each of the runs, one after the other. *)
Definition column_of (f : string) (runs : list (gmap string (list nat)))
  : list nat :=
  runs ≫= (λ r, default [] (r !! f)).

(** [replays g tr g']: the trace [tr] is what the library does from the
    random state [g], call after call: every split of the trace is the
    split the library returns in the random state reached so far (with
    test size 1/5), every fit is a training on the training part of its
    partition in that state, and [g'] is the state after the last call. *)
Inductive replays {L : Library} : rng → list event → rng → Prop :=
| replays_nil (g : rng) : replays g [] g
| replays_split (g g' g'' : rng) (X : DataFrame) (y : Series)
    (out : Partition) (tr : list event) :
    sk_train_test_split g X y (1 # 5) = (out, g') →
    replays g' tr g'' →
    replays g (EvSplit X y out :: tr) g''
| replays_fit (g g' g'' : rng) (p : Partition) (n_estimators max_depth : Z)
    (f : forest) (tr : list event) :
    rf_fit g p.1.1.1 p.1.2 n_estimators max_depth = (f, g') →
    replays g' tr g'' →
    replays g (EvFit p n_estimators max_depth :: tr) g''
| replays_print (g g' : rng) (l : line) (tr : list event) :
    replays g tr g' →
    replays g (EvPrint l :: tr) g'.

(** A computation is traced when what it adds to the history replays the
    library from the random state it starts in to the one it ends in. *)
Definition traced {L : Library} {A : Type} (c : M A) : Prop :=
  ∀ w a w', c w = Ok (a, w') →
    ∃ tr, history w' = history w ++ tr
          ∧ replays (random_state w) tr (random_state w').

(** The records of [n] successive runs of [drop_feature_experiment], each
    after its experiment line, from the world [w] on ([i] runs were made
    before), and the world after them. *)
Fixpoint experiment_chain {L : Library} (n : nat) (i n_runs : Z) (w : World)
  : list (gmap string (list nat)) * World :=
  match n with
  | 0 => ([], w)
  | S n' =>
      match (_ ← print (ExperimentLine (i + 1) n_runs);
             drop_feature_experiment) w with
      | Ok (r, w') =>
          let '(rs, w'') := experiment_chain n' (i + 1) n_runs w' in
          (r :: rs, w'')
      | Raise _ => ([], w)
      end
  end.

(** ** A small instance of the library

    A deterministic stand-in for the libraries, used to run the functions
    on concrete tables: the random state is a counter, a split rotates the
    rows by the counter and cuts off the test rows, and the importance of a
    column is the absolute value of the sum of its numbers. *)
Module Toy.

Definition n_test (n : nat) (ts : Q) : nat :=
  Z.to_nat (Qceiling (inject_Z (Z.of_nat n) * ts)).

Definition split (g : nat) (X : DataFrame) (y : Series) (ts : Q)
  : Partition * nat :=
  let k := n_test (length y) ts in
  ((map (λ '(name, col), (name, drop k (rotate g col))) X,
    map (λ '(name, col), (name, take k (rotate g col))) X,
    drop k (rotate g y),
    take k (rotate g y)),
   S g).

Definition total (col : Series) : Q :=
  foldr Qplus 0%Q (non_missing col).

(** The file read by the toy reader: two features to rank and the ten
    columns [remove_redundant_features] removes, five rows. *)
Definition dataset : DataFrame :=
  [ ("age", [Num 3; Num (-1); NA; Num 2; Num 5]);
    ("bmi", [Num 2; Num 2; Num (-4); NA; Num 1]) ]%string
  ++ map (λ name, (name, [Num 1; Num 2; Num 3; Num 4; Num 5]))
         redundant_features.

(** A training frame with three features and its labels. *)
Definition X0 : DataFrame :=
  [ ("age", [Num 3; Num (-1); Num 1; Num 2; Num 5]);
    ("sex", [Num 1; Num 0; Num 0; Num 1; Num (-2)]);
    ("bmi", [Num 2; Num 2; Num (-4); Num 0; Num 1]) ]%string.

Definition y0 : Series := [Num 1; Num 2; Num 3; Num 4; Num 5].

(** A table with a gap in two of its columns. *)
Definition gaps : DataFrame :=
  [ ("age", [Num 3; Num (-1); NA; Num 2; Num 5]);
    ("sex", [Num 1; Num 0; Num 0; Num 1; Num (-2)]);
    ("bmi", [Num 2; Num 2; Num (-4); NA; Num 1]) ]%string.

#[export] Instance library : Library := {|
  rng := nat;
  forest := nat * DataFrame;
  read_csv := λ path,
    if decide (path = "responder.csv"%string) then Ok dataset
    else Raise OSError;
  standardize_dataset := λ df, df;
  sk_train_test_split := split;
  rf_fit := λ g X y _ _, ((g, X), S g);
  rf_score := λ f _ _, (inject_Z (Z.of_nat f.1) / 10)%Q;
  rf_validation_loss := λ f _ y, Qabs (total y);
  rf_feature_importances := λ f, map (λ c, Qabs (total c.2)) f.2
|}.

Definition world0 : World := {| random_state := 0; history := [] |}.

(** What [preprocess_dataset] makes of [dataset]. *)
Definition labels : Series :=
  Eval vm_compute in
    match preprocess_dataset dataset with
    | Ok (labels, _) => labels
    | Raise _ => []
    end.

Definition preprocessed : DataFrame :=
  Eval vm_compute in
    match preprocess_dataset dataset with
    | Ok (_, dataset_preprocessed) => dataset_preprocessed
    | Raise _ => []
    end.

(** A reader whose file holds the string "NA" in a cell. *)
Definition library_NA : Library := {|
  rng := nat;
  forest := nat * DataFrame;
  read_csv := λ _, Ok [("age"%string, [Num 3; Str "NA"])];
  standardize_dataset := λ df, df;
  sk_train_test_split := split;
  rf_fit := λ g X y _ _, ((g, X), S g);
  rf_score := λ f _ _, 0%Q;
  rf_validation_loss := λ f _ _, 0%Q;
  rf_feature_importances := λ f, map (λ c, Qabs (total c.2)) f.2
|}.

(** A reader whose file holds nothing but the ten columns that
    [remove_redundant_features] removes. *)
Definition library_bare : Library := {|
  rng := nat;
  forest := nat * DataFrame;
  read_csv := λ _,
    Ok (map (λ name, (name, [Num 1; Num 2; Num 3; Num 4; Num 5]))
            redundant_features);
  standardize_dataset := λ df, df;
  sk_train_test_split := split;
  rf_fit := λ g X y _ _, ((g, X), S g);
  rf_score := λ f _ _, 0%Q;
  rf_validation_loss := λ f _ _, 0%Q;
  rf_feature_importances := λ f, map (λ c, Qabs (total c.2)) f.2
|}.

Definition world_bare : @World library_bare :=
  @Build_World library_bare 0 [].

(** A library whose forests change their mind: the importances rise with
    the column for the forests fitted in the first 61 random states (a run
    over two features goes through 61 of them) and fall with it for the
    later ones, so that a second run drops the features in the reverse
    order of the first. *)
Definition library_turn : Library := {|
  rng := nat;
  forest := nat * DataFrame;
  read_csv := λ _, Ok dataset;
  standardize_dataset := λ df, df;
  sk_train_test_split := split;
  rf_fit := λ g X y _ _, ((g, X), S g);
  rf_score := λ f _ _, 0%Q;
  rf_validation_loss := λ f _ _, 0%Q;
  rf_feature_importances := λ f,
    let rising := (λ j : nat, inject_Z (Z.of_nat j)) <$> seq 0 (length f.2) in
    if decide (f.1 < 61) then rising else reverse rising
|}.

Definition world_turn : @World library_turn :=
  @Build_World library_turn 0 [].

Definition world_NA : @World library_NA :=
  @Build_World library_NA 0 [].

(** The state of the loop before the first round on [X0]. *)
Definition st0 : LoopState :=
  {| results := [];
     feature_names := columns X0;
     feature_drop_iterations :=
       list_to_map ((λ feature, (feature, [])) <$> columns X0) |}.

End Toy.

(** * The rest of the repository *)

(** ** k-mers (gene-family notebook) *)

(** A Python string as the sequence of its characters. *)
Abbreviation str := (list Ascii.ascii).

(** The position a slice bound [x] stands for in a sequence of length
    [len]: a negative bound counts from the end, and every bound is clamped
    to [0..len]. *)
Definition slice_index (len : nat) (x : Z) : nat :=
  if bool_decide (x < 0)%Z then Z.to_nat (x + Z.of_nat len)
  else Z.to_nat x `min` len.

(** [s[start:stop]] *)
Definition py_slice {A : Type} (s : list A) (start stop : Z) : list A :=
  let a := slice_index (length s) start in
  let b := slice_index (length s) stop in
  take (b - a) (drop a s).

(** [range(n)] *)
Definition py_range (n : Z) : list Z := seqZ 0 n.

(** [def build_kmers(sequence, k):
       return [sequence[i : i + k] for i in range(len(sequence) - k + 1)]] *)
Definition build_kmers (sequence : str) (k : Z) : list str :=
  (λ i, py_slice sequence i (i + k))
    <$> py_range (Z.of_nat (length sequence) - k + 1).

(** ** Counting the missing values *)

(** A line printed by [count_nans]: the heading, or a column with the
    number of its missing cells. *)
Inductive nan_line : Type :=
| NanHeading
| NanCount (column : string) (count : nat).

(** [Series.isna().sum()] *)
Definition isna_sum (col : Series) : nat :=
  length (filter (λ c, is_na c = true) col).

(** [count_nans(dataset)]: what it prints, line by line (it returns
    nothing). *)
Definition count_nans (dataset : DataFrame) : list nan_line :=
  let nan_counts := (λ c : string * list cell, (c.1, isna_sum c.2)) <$> dataset in
  NanHeading
  :: omap (λ '(column, count),
             if decide (0 < count) then Some (NanCount column count) else None)
          nan_counts.

(** ** The ranking cell *)

(** [np.median] of a list of ints: NaN for the empty list. *)
Definition np_median (l : list nat) : cell :=
  median_of ((λ n, inject_Z (Z.of_nat n)) <$> l).

(** [a < b] on floats: false when one of them is NaN. *)
Definition float_lt (a b : cell) : bool :=
  match a, b with
  | Num x, Num y => negb (Qle_bool y x)
  | _, _ => false
  end.

(** An item goes in front of the first item whose key is not smaller. *)
Fixpoint insert_item (x : string * list nat) (l : list (string * list nat))
  : list (string * list nat) :=
  match l with
  | [] => [x]
  | y :: l' =>
      if float_lt (np_median y.2) (np_median x.2) then y :: insert_item x l'
      else x :: l
  end.

(** [sorted(feature_drop_counts.items(), key=lambda item: np.median(item[1]))]
    on the items in the order of the dict.  [sorted] is stable; this is its
    result whenever the keys are totally ordered, that is when no sequence
    is empty (with a NaN key the result of [sorted] depends on how it
    detects runs, which is not modelled). *)
Definition sorted_feature_drop_counts (items : list (string * list nat))
  : list (string * list nat) :=
  foldr insert_item [] items.

(** [features_sorted, drop_counts_sorted = zip] of the unpacked
    [sorted_feature_drop_counts]: the names and the sequences; with no item
    [zip] yields nothing and the assignment raises ValueError. *)
Definition ranking (items : list (string * list nat))
  : result (list string * list (list nat)) :=
  match sorted_feature_drop_counts items with
  | [] => Raise ValueError
  | sorted => Ok (sorted.*1, sorted.*2)
  end.

(** ** The environment export script *)

(** What the script leaves behind: its exit status, the lines it echoes to
    the two streams, and the files (a file is the list of its lines; what
    [conda], [grep] and [mv] write to the error stream is left out). *)
Record shell_outcome : Type := {
  exit_status : nat;
  stdout : list string;
  stderr : list string;
  files : gmap string (list string)
}.

(** [grep --invert-match "^prefix" file]: the lines of the file that do
    not start with "prefix"; nothing when the file does not exist. *)
Definition grep_invert_prefix (fs : gmap string (list string)) (file : string)
  : list string :=
  filter (λ l, String.prefix "prefix" l = false) (default [] (fs !! file)).

(** [mv src dst] *)
Definition mv (fs : gmap string (list string)) (src dst : string)
  : gmap string (list string) :=
  match fs !! src with
  | Some content => <[dst := content]> (delete src fs)
  | None => fs
  end.

(** [conda_env_export.sh].  [git_root] is what
    [git rev-parse --show-toplevel] prints (nothing when it fails) and
    [conda_output] the lines that [conda env export --no-builds] prints. *)
Definition conda_env_export (git_root : string) (conda_output : list string)
    (fs : gmap string (list string)) : shell_outcome :=
  if decide (git_root ≠ ""%string) then
    let environment_file := (git_root +:+ "/environment.yml")%string in
    let fs := <[environment_file := conda_output]> fs in
    let fs :=
      <[(environment_file +:+ ".tmp")%string :=
          grep_invert_prefix fs environment_file]> fs in
    let fs := mv fs (environment_file +:+ ".tmp")%string environment_file in
    {| exit_status := 0;
       stdout := [("Git repository root found: " +:+ git_root)%string;
                  ("Updated environment file: " +:+ environment_file)%string];
       stderr := [];
       files := fs |}
  else
    {| exit_status := 1;
       stdout := [];
       stderr := ["Error: Git repository root not found."%string];
       files := fs |}.

(** ** Vocabulary of the further statements *)

(** The outputs of [n] successive calls of [random_forest_fit_predict] on
    the same arguments, and the world after them. *)
Fixpoint fit_chain {L : Library} (n : nat)
    (X_train X_test : DataFrame) (y_train y_test : Series)
    (n_estimators max_depth : Z) (w : World)
  : list (pynum * pynum * ImportanceFrame) * World :=
  match n with
  | 0 => ([], w)
  | S n' =>
      match random_forest_fit_predict X_train X_test y_train y_test
              n_estimators max_depth w with
      | Ok (r, w') =>
          let '(rs, w'') := fit_chain n' X_train X_test y_train y_test
                                      n_estimators max_depth w' in
          (r :: rs, w'')
      | Raise _ => ([], w)
      end
  end.

(** The sum of rationals and the element-wise sum of vectors of length
    [k]. *)
Definition Qsum (l : list Q) : Q := foldl Qplus 0%Q l.

Definition vector_sum (k : nat) (vs : list (list Q)) : list Q :=
  foldl (zip_with Qplus) (np_zeros k) vs.

(** A column with cells all of which are missing. *)
Definition all_missing (col : Series) : bool :=
  match col with
  | [] => false
  | _ => forallb is_na col
  end.

(** The order of the ranking: the medians of two sequences, neither of
    them NaN, do not decrease. *)
Definition median_le (a b : list nat) : Prop :=
  match np_median a, np_median b with
  | Num x, Num y => (x <= y)%Q
  | _, _ => False
  end.

(** The items whose sequence has the median [q]. *)
Definition has_median (q : Q) (it : string * list nat) : bool :=
  match np_median it.2 with
  | Num x => Qeq_bool x q
  | _ => false
  end.

(** The experiment lines of a trace. *)
Definition experiment_lines (tr : list event) : list (Z * Z) :=
  omap (λ e, match e with
             | EvPrint (ExperimentLine i n) => Some (i, n)
             | _ => None
             end) tr.

(** ** Concrete inputs of the further statements *)

Definition gattaca : str := String.list_ascii_of_string "GATTACA".

(** The items of a record of four features. *)
Definition toy_items : list (string * list nat) :=
  [("age", [3; 1]); ("bmi", [0; 0]); ("sex", [2; 2]); ("hdl", [0])]%string.

(** * Properties *)

(** ** Sorting and the median *)

Lemma insert_sorted_perm (x : Q) (l : list Q) : insert_sorted x l ≡ₚ x :: l.
Proof.
  induction l as [|y l IH]; simpl; [done|].
  destruct (Qle_bool x y); [done|].
  rewrite IH. apply Permutation_swap.
Qed.

Lemma sort_values_perm (l : list Q) : sort_values l ≡ₚ l.
Proof.
  induction l as [|x l IH]; simpl; [done|].
  by rewrite insert_sorted_perm, IH.
Qed.

Lemma sort_values_length (l : list Q) : length (sort_values l) = length l.
Proof. by rewrite sort_values_perm. Qed.

Lemma insert_sorted_sorted (x : Q) (l : list Q) :
  Sorted Qle l → Sorted Qle (insert_sorted x l).
Proof.
  induction 1 as [|y l Hl IH Hhd]; simpl.
  - by repeat constructor.
  - destruct (Qle_bool x y) eqn:Hxy.
    + apply Qle_bool_iff in Hxy. by repeat constructor.
    + assert (y <= x)%Q as Hyx.
      { apply Qlt_le_weak, Qnot_le_lt. intros H%Qle_bool_iff. congruence. }
      constructor; [done|].
      destruct Hhd as [|z l' Hyz]; simpl; [by constructor|].
      destruct (Qle_bool x z); by constructor.
Qed.

Lemma sort_values_sorted (l : list Q) : Sorted Qle (sort_values l).
Proof.
  induction l as [|x l IH]; simpl; [constructor|].
  by apply insert_sorted_sorted.
Qed.

(** ** Imputation *)

Lemma df_median_numeric (df : DataFrame) :
  numeric df = true →
  df_median df = Ok ((λ c : string * list cell,
                        (c.1, median_of (non_missing c.2))) <$> df).
Proof.
  induction df as [|[name col] df IH]; simpl; [done|].
  intros [Hcol Hdf]%andb_prop. unfold series_median.
  destruct (existsb is_str col); [done|]. simpl.
  by rewrite IH.
Qed.

Lemma assoc_fmap_None {A B : Type} (f : string * A → B) k (l : list (string * A)) :
  k ∉ columns l → assoc k ((λ c, (c.1, f c)) <$> l) = None.
Proof.
  unfold columns. induction l as [|[k' v] l IH]; simpl; [done|].
  intros Hk. apply not_elem_of_cons in Hk as [??].
  destruct (decide (k = k')); [done|]. by apply IH.
Qed.

Lemma assoc_fmap_lookup {A B : Type} (f : string * A → B) j k v
    (l : list (string * A)) :
  NoDup (columns l) → l !! j = Some (k, v) →
  assoc k ((λ c, (c.1, f c)) <$> l) = Some (f (k, v)).
Proof.
  unfold columns. revert j.
  induction l as [|[k' v'] l IH]; intros j Hnd Hj; [done|].
  apply NoDup_cons in Hnd as [Hk' Hnd]. simpl.
  destruct j as [|j]; simpl in Hj.
  - inversion Hj; subst. by rewrite decide_True.
  - rewrite decide_False; [by eapply IH|].
    intros ->. apply Hk'. apply list_elem_of_fmap.
    exists (k', v). split; [done|]. by eapply list_elem_of_lookup_2.
Qed.

Lemma fill_cell_no_NA (v : option cell) (col : Series) :
  NA ∉ col → map (fill_cell v) col = col.
Proof.
  induction col as [|c col IH]; [done|].
  intros [Hc Hcol]%not_elem_of_cons. simpl. rewrite IH by done.
  by destruct c.
Qed.

(** ** Arithmetic of the averages *)

Lemma Qplus_0_l_eq (q : Q) : (0 + q)%Q = q.
Proof.
  destruct q as [n d]. unfold Qplus. simpl. by rewrite Z.mul_1_r.
Qed.

Lemma Qdiv_1_r_eq (q : Q) : (q / inject_Z 1)%Q = q.
Proof.
  destruct q as [n d]. unfold Qdiv, Qmult, Qinv. simpl.
  by rewrite Z.mul_1_r, Pos.mul_1_r.
Qed.

Lemma zip_with_zeros (l : list Q) :
  zip_with Qplus (np_zeros (length l)) l = l.
Proof.
  unfold np_zeros. induction l as [|q l IH]; simpl; [done|].
  by rewrite Qplus_0_l_eq, IH.
Qed.

Lemma np_truediv_1 (l : list Q) : np_truediv l 1 = l.
Proof.
  unfold np_truediv. induction l as [|q l IH]; simpl; [done|].
  by rewrite Qdiv_1_r_eq, IH.
Qed.

(** ** Lists, frames and dicts *)

Lemma assoc_is_Some {A : Type} (k : string) (l : list (string * A)) :
  k ∈ columns l → is_Some (assoc k l).
Proof.
  unfold columns. induction l as [|[k' v] l IH]; simpl.
  - by intros ?%elem_of_nil.
  - intros [->|Hk]%elem_of_cons.
    + by rewrite decide_True.
    + destruct (decide (k = k')); [done|]. by apply IH.
Qed.

Lemma select_columns_spec (df : DataFrame) (names : list string) :
  (∀ f, f ∈ names → f ∈ columns df) →
  ∃ sel, select_columns df names = Ok sel ∧ columns sel = names.
Proof.
  induction names as [|n names IH]; intros Hin; simpl.
  - by exists [].
  - destruct (assoc_is_Some n df) as [col Hcol].
    { apply Hin. by left. }
    destruct IH as (rest & Hrest & Hcols).
    { intros f Hf. apply Hin. by right. }
    rewrite Hcol, Hrest. simpl. eexists. split; [done|].
    unfold columns in *. rewrite fmap_cons. by f_equal.
Qed.

Lemma list_remove_NoDup (l : list string) (i : nat) (x : string) :
  NoDup l → l !! i = Some x → list_remove x l = Ok (delete i l).
Proof.
  revert i. induction l as [|y l IH]; intros i Hnd Hi; [done|].
  apply NoDup_cons in Hnd as [Hy Hnd]. simpl.
  destruct i as [|i]; simpl in Hi.
  - inversion Hi; subst. by rewrite decide_True.
  - rewrite decide_False.
    + by rewrite (IH i).
    + intros ->. apply Hy. by eapply list_elem_of_lookup_2.
Qed.

Lemma argmin_from_spec (l : list Q) (best_i : nat) (best : Q) (i : nat) :
  (argmin_from best_i best i l = best_i
   ∧ ∀ j v, l !! j = Some v → (best <= v)%Q)
  ∨ ∃ j v,
      argmin_from best_i best i l = i + j
      ∧ l !! j = Some v
      ∧ (v < best)%Q
      ∧ (∀ j' v', l !! j' = Some v' → (v <= v')%Q)
      ∧ (∀ j' v', j' < j → l !! j' = Some v' → (v < v')%Q).
Proof.
  revert best_i best i. induction l as [|x l IH]; intros best_i best i; simpl.
  - left. split; [done|]. by intros j v ?.
  - destruct (Qle_bool best x) eqn:Hle.
    + apply Qle_bool_iff in Hle.
      destruct (IH best_i best (S i))
        as [[Hr Hall]|(j & v & Hr & Hj & Hlt & Hmin & Hfirst)].
      * left. split; [done|]. intros [|j] v Hv; simpl in Hv.
        -- by inversion Hv; subst.
        -- by eapply Hall.
      * right. exists (S j), v. split; [rewrite Hr; lia|].
        split; [done|]. split; [done|]. split.
        -- intros [|j'] v' Hv'; simpl in Hv'.
           ++ inversion Hv'; subst. apply Qlt_le_weak.
              by eapply Qlt_le_trans.
           ++ by eapply Hmin.
        -- intros [|j'] v' Hlt' Hv'; simpl in Hv'.
           ++ inversion Hv'; subst. by eapply Qlt_le_trans.
           ++ eapply Hfirst; [|done]. lia.
    + assert (x < best)%Q as Hxb.
      { apply Qnot_le_lt. intros H%Qle_bool_iff. congruence. }
      destruct (IH i x (S i))
        as [[Hr Hall]|(j & v & Hr & Hj & Hlt & Hmin & Hfirst)].
      * right. exists 0, x. split; [rewrite Hr; lia|].
        split; [done|]. split; [done|]. split.
        -- intros [|j'] v' Hv'; simpl in Hv'.
           ++ inversion Hv'; subst. apply Qle_refl.
           ++ by eapply Hall.
        -- intros j' v' Hlt'. lia.
      * right. exists (S j), v. split; [rewrite Hr; lia|].
        split; [done|]. split; [by eapply Qlt_trans|]. split.
        -- intros [|j'] v' Hv'; simpl in Hv'.
           ++ inversion Hv'; subst. by apply Qlt_le_weak.
           ++ by eapply Hmin.
        -- intros [|j'] v' Hlt' Hv'; simpl in Hv'.
           ++ by inversion Hv'; subst.
           ++ eapply Hfirst; [|done]. lia.
Qed.

Lemma np_argmin_spec (l : list Q) :
  l ≠ [] →
  ∃ i v,
    np_argmin l = Ok i
    ∧ l !! i = Some v
    ∧ (∀ j v', l !! j = Some v' → (v <= v')%Q)
    ∧ (∀ j v', j < i → l !! j = Some v' → (v < v')%Q).
Proof.
  destruct l as [|x l]; [done|]. intros _. simpl.
  destruct (argmin_from_spec l 0 x 1)
    as [[Hr Hall]|(j & v & Hr & Hj & Hlt & Hmin & Hfirst)].
  - exists 0, x. rewrite Hr. split; [done|]. split; [done|]. split.
    + intros [|j] v' Hv'; simpl in Hv'.
      * inversion Hv'; subst. apply Qle_refl.
      * by eapply Hall.
    + intros j v' Hj. lia.
  - exists (S j), v. rewrite Hr. split; [done|]. split; [done|]. split.
    + intros [|j'] v' Hv'; simpl in Hv'.
      * inversion Hv'; subst. by apply Qlt_le_weak.
      * by eapply Hmin.
    + intros [|j'] v' Hlt' Hv'; simpl in Hv'.
      * by inversion Hv'; subst.
      * eapply Hfirst; [|done]. lia.
Qed.

(** ** Loops and traces *)

Section Loops.
Context {L : Library}.

Lemma for_range_inv {St : Type} (I : nat → St → World → Prop)
    (n : nat) (body : St → M St) (s : St) (w : World) :
  I 0 s w →
  (∀ j s1 w1, j < n → I j s1 w1 →
     ∃ s2 w2, body s1 w1 = Ok (s2, w2) ∧ I (S j) s2 w2) →
  ∃ s' w', for_range n body s w = Ok (s', w') ∧ I n s' w'.
Proof.
  revert I s w. induction n as [|n IH]; intros I s w H0 Hstep.
  - by exists s, w.
  - destruct (Hstep 0 s w) as (s1 & w1 & Hbody & H1); [lia|done|].
    destruct (IH (λ j, I (S j)) s1 w1) as (s' & w' & Hfor & Hn);
      [done| |].
    { intros j s2 w2 Hj HI. apply Hstep; [lia|done]. }
    exists s', w'. split; [|done].
    simpl. unfold mbind, M_bind. by rewrite Hbody.
Qed.

Lemma bind_Ok {A B : Type} (c : M A) (f : A → M B) (w w' : World) (a : A) :
  c w = Ok (a, w') → (c ≫= f) w = f a w'.
Proof. intros H. unfold mbind, M_bind. by rewrite H. Qed.

Lemma bind_Raise {A B : Type} (c : M A) (f : A → M B) (w : World) (e : exn) :
  c w = Raise e → (c ≫= f) w = Raise e.
Proof. intros H. unfold mbind, M_bind. by rewrite H. Qed.

Lemma bind_liftR_Ok {A B : Type} (r : result A) (f : A → M B) (w : World)
    (a : A) :
  r = Ok a → (liftR r ≫= f) w = f a w.
Proof. intros ->. done. Qed.

Lemma while_rounds_step (X_train : DataFrame) (y_train : Series)
    (st : LoopState) (w : World) :
  while_rounds X_train y_train st w =
  match feature_names st with
  | [] => Ok (st, w)
  | _ :: _ =>
      match elimination_round X_train y_train st w with
      | Ok (st', w') => while_rounds X_train y_train st' w'
      | Raise e => Raise e
      end
  end.
Proof.
  funelim (while_rounds X_train y_train st w); try clear Heqcall;
    repeat match goal with
           | H : feature_names _ = _ |- _ => rewrite H
           | H : elimination_round _ _ _ _ = _ |- _ => rewrite H
           end; done.
Qed.

Context {C : LibraryContract L}.

Lemma random_forest_fit_predict_spec
    (X_train X_test : DataFrame) (y_train y_test : Series)
    (n_estimators max_depth : Z) (w : World) :
  ∃ tl vl fi w',
    random_forest_fit_predict X_train X_test y_train y_test
      n_estimators max_depth w = Ok ((PyFloat tl, PyFloat vl, fi), w')
    ∧ index fi = columns X_train
    ∧ length (feature_importance fi) = length X_train
    ∧ history w' = history w
        ++ [EvFit (X_train, X_test, y_train, y_test) n_estimators max_depth].
Proof.
  unfold random_forest_fit_predict, mbind, M_bind, fit_forest, liftR,
    importance_frame, mret, M_ret.
  pose proof (importances_length (random_state w) X_train y_train
                n_estimators max_depth) as Hlen.
  destruct (rf_fit _ _ _ _ _) as [f g]. simpl in *.
  rewrite decide_True by (by unfold columns; rewrite length_fmap).
  by eexists _, _, _, _.
Qed.

Lemma py_truediv_pos (a : pynum) (n : Z) :
  (0 < n)%Z → ∃ q, py_truediv a (PyInt n) = Ok (PyFloat q).
Proof.
  intros Hn. unfold py_truediv. simpl.
  rewrite bool_decide_eq_false_2 by lia. by eexists.
Qed.

Lemma np_iadd_same_length (a b : list Q) :
  length b = length a →
  ∃ c, np_iadd a b = Ok c ∧ length c = length a.
Proof.
  intros Hlen. unfold np_iadd. rewrite decide_True by done.
  eexists. split; [done|]. rewrite length_zip_with. lia.
Qed.

Lemma avg_random_forest_fit_predict_spec
    (X_train X_test : DataFrame) (y_train y_test : Series)
    (n_estimators max_depth n_iterations : Z) (w : World) :
  (0 < n_iterations)%Z →
  ∃ tl vl fi w',
    avg_random_forest_fit_predict X_train X_test y_train y_test
      n_estimators max_depth n_iterations w = Ok ((tl, vl, fi), w')
    ∧ index fi = columns X_train
    ∧ length (feature_importance fi) = length X_train
    ∧ history w' = history w
        ++ replicate (Z.to_nat n_iterations)
             (EvFit (X_train, X_test, y_train, y_test) n_estimators max_depth).
Proof.
  intros Hn. unfold avg_random_forest_fit_predict.
  set (ev := EvFit (X_train, X_test, y_train, y_test) n_estimators max_depth).
  match goal with
  | |- context [for_range ?n ?body ?s0] =>
      destruct (for_range_inv
        (λ j (acc : pynum * pynum * list Q) w1,
           length acc.2 = length X_train
           ∧ history w1 = history w ++ replicate j ev) n body s0 w)
        as ([[ttl tvl] tfi] & w1 & Hfor & Hlen & Hhist)
  end.
  { simpl. split; [by unfold np_zeros; rewrite length_replicate|].
    by rewrite app_nil_r. }
  { intros j [[ttl tvl] tfi] w1 _ [Hlen Hhist]. simpl in Hlen.
    destruct (random_forest_fit_predict_spec X_train X_test y_train y_test
                n_estimators max_depth w1)
      as (tl & vl & fi & w2 & Hfit & _ & Hfi & Hh2).
    destruct (np_iadd_same_length tfi (feature_importance fi))
      as (c & Hadd & Hc); [congruence|].
    unfold mbind, M_bind, liftR, mret, M_ret. rewrite Hfit, Hadd.
    eexists _, _. split; [done|]. simpl. split; [congruence|].
    by rewrite Hh2, Hhist, <- app_assoc, replicate_cons_app. }
  simpl in Hlen.
  destruct (py_truediv_pos ttl n_iterations Hn) as [qt Hqt].
  destruct (py_truediv_pos tvl n_iterations Hn) as [qv Hqv].
  erewrite bind_Ok by exact Hfor. simpl.
  erewrite bind_liftR_Ok by exact Hqt.
  erewrite bind_liftR_Ok by exact Hqv.
  unfold importance_frame.
  rewrite decide_True
    by (by unfold np_truediv, columns; rewrite length_map, length_fmap).
  eexists _, _, _, _. split; [done|]. simpl.
  unfold np_truediv. by rewrite length_map.
Qed.

Lemma multisplit_avg_random_forest_fit_predict_spec
    (X_train : DataFrame) (y_train : Series)
    (n_estimators max_depth n_forest_iterations n_dataset_iterations : Z)
    (w : World) :
  (0 < n_forest_iterations)%Z →
  (0 < n_dataset_iterations)%Z →
  ∃ tl vl fi w' (ps : list Partition),
    multisplit_avg_random_forest_fit_predict X_train y_train
      n_estimators max_depth n_forest_iterations n_dataset_iterations w
    = Ok ((tl, vl, fi), w')
    ∧ index fi = columns X_train
    ∧ length (feature_importance fi) = length X_train
    ∧ length ps = Z.to_nat n_dataset_iterations
    ∧ history w' = history w
        ++ ps ≫= split_block X_train y_train n_estimators max_depth
                   (Z.to_nat n_forest_iterations).
Proof.
  intros Hnf Hnd. unfold multisplit_avg_random_forest_fit_predict.
  match goal with
  | |- context [for_range ?n ?body ?s0] =>
      destruct (for_range_inv
        (λ j (acc : pynum * pynum * list Q) w1,
           length acc.2 = length X_train
           ∧ ∃ ps : list Partition,
               length ps = j
               ∧ history w1 = history w
                   ++ ps ≫= split_block X_train y_train n_estimators max_depth
                              (Z.to_nat n_forest_iterations)) n body s0 w)
        as ([[ttl tvl] tfi] & w1 & Hfor & Hlen & ps & Hps & Hhist)
  end.
  { simpl. split; [by unfold np_zeros; rewrite length_replicate|].
    exists []. by rewrite app_nil_r. }
  { intros j [[ttl tvl] tfi] w1 _ (Hlen & ps & Hps & Hhist). simpl in Hlen.
    unfold mbind at 1, M_bind at 1, train_test_split at 1.
    pose proof (split_columns (random_state w1) X_train y_train (1 # 5))
      as Hcols.
    destruct (sk_train_test_split _ _ _ _) as [[[[Xl Xv] yl] yv] g].
    simpl in Hcols.
    set (w2 := {| random_state := g |}).
    destruct (avg_random_forest_fit_predict_spec Xl Xv yl yv
                n_estimators max_depth n_forest_iterations w2 Hnf)
      as (tl & vl & fi & w3 & Havg & _ & Hfi & Hh3).
    assert (length Xl = length X_train) as HXl.
    { apply (f_equal length) in Hcols. unfold columns in Hcols.
      by rewrite !length_fmap in Hcols. }
    destruct (np_iadd_same_length tfi (feature_importance fi))
      as (c & Hadd & Hc); [congruence|].
    unfold mbind, M_bind, liftR, mret, M_ret. rewrite Havg, Hadd.
    eexists _, _. split; [done|]. simpl. split; [congruence|].
    exists (ps ++ [(Xl, Xv, yl, yv)]). split.
    { rewrite length_app. simpl. lia. }
    rewrite Hh3. subst w2. simpl. rewrite Hhist, <- !app_assoc. f_equal.
    rewrite bind_app. f_equal. simpl. by rewrite app_nil_r. }
  simpl in Hlen.
  destruct (py_truediv_pos ttl n_dataset_iterations Hnd) as [qt Hqt].
  destruct (py_truediv_pos tvl n_dataset_iterations Hnd) as [qv Hqv].
  erewrite bind_Ok by exact Hfor. simpl.
  erewrite bind_liftR_Ok by exact Hqt.
  erewrite bind_liftR_Ok by exact Hqv.
  unfold importance_frame.
  rewrite decide_True
    by (by unfold np_truediv, columns; rewrite length_map, length_fmap).
  eexists _, _, _, _, ps. split; [done|]. simpl.
  unfold np_truediv. by rewrite length_map.
Qed.

Lemma dict_append_spec (d : gmap string (list nat)) (k : string) (v : nat)
    (old : list nat) :
  d !! k = Some old →
  dict_append d k v = Ok (alter (λ l, l ++ [v]) k d).
Proof.
  intros Hk. unfold dict_append. rewrite Hk. f_equal.
  apply map_eq. intros k'. destruct (decide (k = k')) as [->|Hne].
  - by rewrite lookup_insert_eq, lookup_alter_eq, Hk.
  - by rewrite lookup_insert_ne, lookup_alter_ne.
Qed.

Lemma elimination_round_spec (X_train : DataFrame) (y_train : Series)
    (st : LoopState) (w : World) :
  feature_names st ≠ [] →
  NoDup (feature_names st) →
  (∀ f, f ∈ feature_names st → f ∈ columns X_train) →
  (∀ f, f ∈ feature_names st → is_Some (feature_drop_iterations st !! f)) →
  ∃ (r : RoundInfo) (fi : ImportanceFrame) (w1 : World) (i : nat) (v : Q),
    select_columns X_train (feature_names st) = Ok (r_active r)
    ∧ columns (r_active r) = feature_names st
    ∧ length (r_parts r) = 5
    ∧ multisplit_avg_random_forest_fit_predict (r_active r) y_train 20 1 5 5 w
      = Ok (((r_losses r).1, (r_losses r).2, fi), w1)
    ∧ index fi = feature_names st
    ∧ feature_names st !! i = Some (r_dropped r)
    ∧ feature_importance fi !! i = Some v
    ∧ (∀ j v', feature_importance fi !! j = Some v' → (v <= v')%Q)
    ∧ (∀ j v', j < i → feature_importance fi !! j = Some v' → (v < v')%Q)
    ∧ elimination_round X_train y_train st w
      = Ok ({| results := results st ++ [r_losses r];
               feature_names := delete i (feature_names st);
               feature_drop_iterations :=
                 record_drop (feature_drop_iterations st) r |},
            {| random_state := random_state w1;
               history := history w ++ round_trace y_train r |}).
Proof.
  intros Hne Hnd Hcols Hkeys.
  destruct (select_columns_spec X_train (feature_names st) Hcols)
    as (Xa & Hsel & HXa).
  destruct (multisplit_avg_random_forest_fit_predict_spec Xa y_train 20 1 5 5 w)
    as (tl & vl & fi & w1 & ps & Hms & Hidx & Hlen & Hps & Hhist); [lia..|].
  assert (length Xa = length (feature_names st)) as HlenXa.
  { rewrite <- HXa. unfold columns. by rewrite length_fmap. }
  destruct (np_argmin_spec (feature_importance fi))
    as (i & v & Harg & Hv & Hmin & Hfirst).
  { intros Hnil. rewrite Hnil in Hlen. simpl in Hlen.
    destruct (feature_names st); [done|]. simpl in *. lia. }
  destruct (lookup_lt_is_Some_2 (feature_names st) i) as [f Hf].
  { apply lookup_lt_Some in Hv. lia. }
  destruct (Hkeys f) as [old Hold]; [by eapply list_elem_of_lookup_2|].
  exists {| r_active := Xa; r_parts := ps; r_losses := (tl, vl);
            r_dropped := f |}, fi, w1, i, v.
  simpl. split; [done|]. split; [done|]. split; [done|]. split; [done|].
  split; [congruence|]. split; [done|]. split; [done|]. split; [done|].
  split; [done|].
  unfold elimination_round.
  erewrite bind_liftR_Ok by exact Hsel.
  erewrite bind_Ok by exact Hms. simpl.
  erewrite bind_liftR_Ok by exact Harg.
  erewrite bind_liftR_Ok by (unfold list_getitem; by rewrite Hf).
  erewrite bind_liftR_Ok by (by apply list_remove_NoDup).
  erewrite bind_liftR_Ok by (by eapply dict_append_spec).
  unfold mbind, M_bind, print, log, mret, M_ret. simpl.
  assert (length (delete i (feature_names st)) = length Xa - 1) as ->.
  { rewrite length_delete by eauto. lia. }
  unfold record_drop, remaining, round_trace, remaining. simpl.
  by rewrite Hhist, <- app_assoc.
Qed.

Lemma while_rounds_spec (X_train : DataFrame) (y_train : Series) (n : nat) :
  ∀ (st : LoopState) (w : World),
    length (feature_names st) = n →
    NoDup (feature_names st) →
    (∀ f, f ∈ feature_names st → f ∈ columns X_train) →
    (∀ f, f ∈ feature_names st → is_Some (feature_drop_iterations st !! f)) →
    ∃ (rs : list RoundInfo) (st' : LoopState) (w' : World),
      while_rounds X_train y_train st w = Ok (st', w')
      ∧ rounds_spec X_train (feature_names st) rs
      ∧ feature_names st' = []
      ∧ feature_drop_iterations st'
        = foldl record_drop (feature_drop_iterations st) rs
      ∧ results st' = results st ++ (r_losses <$> rs)
      ∧ history w' = history w ++ rs ≫= round_trace y_train.
Proof.
  induction n as [|n IH]; intros st w Hn Hnd Hcols Hkeys;
    rewrite while_rounds_step.
  - apply nil_length_inv in Hn. rewrite Hn.
    exists [], st, w. rewrite Hn. simpl. rewrite !app_nil_r.
    split; [done|]. split; [constructor|]. done.
  - destruct (elimination_round_spec X_train y_train st w)
      as (r & fi & w1 & i & v & Hsel & _ & Hps & _ & _ & Hi & _ & _ & _ & Hround);
      [by intros Hnil; rewrite Hnil in Hn|done..|].
    rewrite Hround.
    set (st1 := {| results := results st ++ [r_losses r] |}).
    set (w2 := {| random_state := random_state w1 |}).
    assert (delete i (feature_names st) `sublist_of` feature_names st) as Hsub
      by apply sublist_delete.
    destruct (IH st1 w2)
      as (rs & st' & w' & Hloop & Hrs & Hnil & Hd & Hres & Hh).
    + subst st1. simpl. rewrite length_delete by eauto. lia.
    + by eapply sublist_NoDup.
    + intros f Hf. apply Hcols. by eapply elem_of_sublist.
    + intros f Hf. subst st1. simpl. unfold record_drop.
      destruct (decide (r_dropped r = f)) as [<-|Hne].
      * rewrite lookup_alter_eq. apply fmap_is_Some, Hkeys.
        by eapply list_elem_of_lookup_2.
      * rewrite lookup_alter_ne by done. apply Hkeys.
        by eapply elem_of_sublist.
    + exists (r :: rs), st', w'.
      destruct (feature_names st) as [|f0 names0] eqn:Hnames; [done|].
      split; [done|]. split; [by econstructor|]. split; [done|].
      split; [done|]. subst st1 w2. simpl in *.
      split; [by rewrite Hres, <- app_assoc|].
      by rewrite Hh, <- app_assoc.
Qed.

(** *** What a run of rounds looks like *)

Lemma select_columns_columns (df sel : DataFrame) (names : list string) :
  select_columns df names = Ok sel → columns sel = names.
Proof.
  revert sel. induction names as [|n names IH]; intros sel; simpl.
  - by intros [= <-].
  - destruct (assoc n df); [|done]. simpl.
    destruct (select_columns df names) as [rest|]; [|done]. simpl.
    intros [= <-]. unfold columns in *. rewrite fmap_cons. f_equal. by apply IH.
Qed.

Lemma select_columns_length (df sel : DataFrame) (names : list string) :
  select_columns df names = Ok sel → length sel = length names.
Proof.
  intros H%select_columns_columns. rewrite <- H. unfold columns.
  by rewrite length_fmap.
Qed.

Lemma rounds_spec_length (X : DataFrame) names rs :
  rounds_spec X names rs → length rs = length names.
Proof.
  induction 1 as [|names r rs i Hsel Hps Hi Hrs IH]; [done|].
  simpl. rewrite IH, length_delete by eauto.
  apply lookup_lt_Some in Hi. lia.
Qed.

Lemma rounds_spec_dropped (X : DataFrame) names rs :
  rounds_spec X names rs → r_dropped <$> rs ≡ₚ names.
Proof.
  induction 1 as [|names r rs i Hsel Hps Hi Hrs IH]; [done|].
  rewrite fmap_cons, IH. symmetry. by apply delete_Permutation.
Qed.

Lemma rounds_spec_remaining (X : DataFrame) names rs :
  rounds_spec X names rs → remaining <$> rs = reverse (seq 0 (length names)).
Proof.
  induction 1 as [|names r rs i Hsel Hps Hi Hrs IH]; [done|].
  rewrite fmap_cons, IH, length_delete by eauto.
  unfold remaining. rewrite (select_columns_length _ _ _ Hsel).
  apply lookup_lt_Some in Hi.
  destruct (length names) as [|m]; [lia|].
  replace (S m - 1) with m by lia.
  by rewrite seq_S, reverse_snoc.
Qed.

Lemma rounds_spec_parts (X : DataFrame) names rs :
  rounds_spec X names rs → Forall (λ r, length (r_parts r) = 5) rs.
Proof. induction 1; by constructor. Qed.

Lemma rounds_spec_last (X : DataFrame) names rs :
  rounds_spec X names rs → names ≠ [] →
  ∃ r, last rs = Some r
       ∧ columns (r_active r) = [r_dropped r]
       ∧ remaining r = 0
       ∧ r_parts r ≠ [].
Proof.
  induction 1 as [|names r rs i Hsel Hps Hi Hrs IH]; [done|]. intros _.
  destruct (decide (delete i names = [])) as [Hnil|Hne].
  - rewrite Hnil in Hrs. apply rounds_spec_length in Hrs.
    destruct rs; [|done].
    exists r. split; [done|].
    pose proof (select_columns_columns _ _ _ Hsel) as Hcols.
    pose proof (select_columns_length _ _ _ Hsel) as Hactive.
    assert (length names = 1) as Hlen.
    { apply (f_equal length) in Hnil. rewrite length_delete in Hnil by eauto.
      apply lookup_lt_Some in Hi. simpl in Hnil. lia. }
    clear Hsel.
    destruct names as [|f [|??]]; simplify_eq/=.
    destruct i as [|i]; simpl in Hi; [|by rewrite lookup_nil in Hi].
    simplify_eq/=.
    split; [done|]. split.
    + unfold remaining. by rewrite Hactive.
    + by destruct (r_parts r).
  - destruct (IH Hne) as (r' & Hlast & Hr').
    exists r'. split; [|done].
    destruct rs; [done|]. by rewrite last_cons_cons.
Qed.

Lemma foldl_record_drop_notin (rs : list RoundInfo) d f :
  f ∉ r_dropped <$> rs → foldl record_drop d rs !! f = d !! f.
Proof.
  revert d. induction rs as [|r rs IH]; intros d Hf; [done|].
  rewrite fmap_cons in Hf. apply not_elem_of_cons in Hf as [Hne Hf].
  simpl. rewrite IH by done. unfold record_drop.
  by rewrite lookup_alter_ne.
Qed.

Lemma foldl_record_drop_in (rs : list RoundInfo) d r :
  NoDup (r_dropped <$> rs) → r ∈ rs →
  foldl record_drop d rs !! r_dropped r
  = (λ l, l ++ [remaining r]) <$> d !! r_dropped r.
Proof.
  revert d. induction rs as [|r0 rs IH]; intros d Hnd Hr.
  - by apply elem_of_nil in Hr.
  - rewrite fmap_cons in Hnd. apply NoDup_cons in Hnd as [Hr0 Hnd].
    simpl. apply elem_of_cons in Hr as [->|Hr].
    + rewrite foldl_record_drop_notin by done.
      unfold record_drop. by rewrite lookup_alter_eq.
    + rewrite IH by done. unfold record_drop.
      rewrite lookup_alter_ne; [done|].
      intros Heq. apply Hr0. rewrite Heq.
      by apply list_elem_of_fmap_2.
Qed.

Lemma drop_record_lookup (rs : list RoundInfo) r :
  NoDup (r_dropped <$> rs) → r ∈ rs →
  drop_record rs !! r_dropped r = Some [remaining r].
Proof.
  intros Hnd Hr. unfold drop_record. apply elem_of_list_to_map.
  - by rewrite <- list_fmap_compose.
  - apply list_elem_of_fmap. by exists r.
Qed.

Lemma drop_record_lookup_None (rs : list RoundInfo) f :
  f ∉ r_dropped <$> rs → drop_record rs !! f = None.
Proof.
  intros Hf. unfold drop_record. apply not_elem_of_list_to_map.
  by rewrite <- list_fmap_compose.
Qed.

Lemma initial_record_lookup (names : list string) f :
  (list_to_map ((λ feature, (feature, [])) <$> names) : gmap string (list nat))
    !! f
  = if decide (f ∈ names) then Some [] else None.
Proof.
  case_decide as Hf.
  - apply elem_of_list_to_map_1'.
    + intros y [x [[= _ ->] _]]%list_elem_of_fmap. done.
    + apply list_elem_of_fmap. by exists f.
  - apply not_elem_of_list_to_map. rewrite <- list_fmap_compose.
    by rewrite list_fmap_id.
Qed.

Lemma final_record (X : DataFrame) names rs :
  NoDup names → rounds_spec X names rs →
  foldl record_drop (list_to_map ((λ feature, (feature, [])) <$> names)) rs
  = drop_record rs.
Proof.
  intros Hnd Hrs. pose proof (rounds_spec_dropped _ _ _ Hrs) as Hperm.
  assert (NoDup (r_dropped <$> rs)) as Hnd' by by rewrite Hperm.
  apply map_eq. intros f.
  destruct (decide (f ∈ r_dropped <$> rs)) as [Hf|Hf].
  - apply list_elem_of_fmap in Hf as (r & -> & Hr).
    rewrite foldl_record_drop_in, drop_record_lookup by done.
    rewrite initial_record_lookup, decide_True; [done|].
    rewrite <- Hperm. by apply list_elem_of_fmap_2.
  - rewrite foldl_record_drop_notin, drop_record_lookup_None by done.
    rewrite initial_record_lookup, decide_False; [done|].
    by rewrite <- Hperm.
Qed.

Lemma dom_drop_record (X : DataFrame) names rs :
  rounds_spec X names rs →
  dom (drop_record rs) = list_to_set names.
Proof.
  intros Hrs. unfold drop_record. rewrite dom_list_to_map_L.
  rewrite <- list_fmap_compose.
  apply set_eq. intros f. rewrite !elem_of_list_to_set.
  by rewrite <- (rounds_spec_dropped _ _ _ Hrs).
Qed.

Lemma recorded_drop_record (X : DataFrame) names rs :
  NoDup names → rounds_spec X names rs →
  recorded (drop_record rs) ≡ₚ seq 0 (length names).
Proof.
  intros Hnd Hrs. pose proof (rounds_spec_dropped _ _ _ Hrs) as Hperm.
  unfold recorded, drop_record. rewrite map_to_list_to_map.
  - rewrite <- list_fmap_compose.
    transitivity (remaining <$> rs).
    + clear. induction rs as [|r rs IH]; [done|].
      rewrite !fmap_cons. simpl. by rewrite IH.
    + rewrite (rounds_spec_remaining _ _ _ Hrs). by rewrite reverse_Permutation.
  - rewrite <- list_fmap_compose. by rewrite Hperm.
Qed.

Lemma elimination_loop_spec (X_train : DataFrame) (y_train : Series)
    (w : World) :
  NoDup (columns X_train) →
  ∃ (rs : list RoundInfo) (w' : World),
    elimination_loop X_train y_train w = Ok (drop_record rs, w')
    ∧ rounds_spec X_train (columns X_train) rs
    ∧ history w' = history w ++ rs ≫= round_trace y_train.
Proof.
  intros Hnd. unfold elimination_loop.
  set (st := {| results := [] |}).
  destruct (while_rounds_spec X_train y_train (length (columns X_train)) st w)
    as (rs & st' & w' & Hloop & Hrs & _ & Hd & _ & Hh); try done.
  { intros f Hf. subst st. simpl.
    rewrite initial_record_lookup, decide_True; done. }
  exists rs, w'. erewrite bind_Ok by exact Hloop.
  unfold mret, M_ret. rewrite Hd. subst st. simpl in *.
  by erewrite final_record.
Qed.

(** *** Projections of the trace of a run *)

Lemma omap_replicate_None {A B : Type} (f : A → option B) (n : nat) (x : A) :
  f x = None → omap f (replicate n x) = [].
Proof. intros Hx. induction n as [|n IH]; simpl; [done|]. rewrite Hx. exact IH. Qed.

Lemma omap_replicate_Some {A B : Type} (f : A → option B) (n : nat) (x : A)
    (y : B) :
  f x = Some y → omap f (replicate n x) = replicate n y.
Proof.
  intros Hx. induction n as [|n IH]; simpl; [done|].
  rewrite Hx. f_equal. exact IH.
Qed.

Lemma split_outputs_blocks X y ne md n (ps : list Partition) :
  split_outputs (ps ≫= split_block X y ne md n) = ps.
Proof.
  unfold split_outputs. induction ps as [|p ps IH]; [done|].
  rewrite bind_cons, omap_app, IH. unfold split_block. simpl.
  by rewrite omap_replicate_None.
Qed.

Lemma split_inputs_blocks X y ne md n (ps : list Partition) :
  split_inputs (ps ≫= split_block X y ne md n) = replicate (length ps) X.
Proof.
  unfold split_inputs. induction ps as [|p ps IH]; [done|].
  rewrite bind_cons, omap_app, IH. unfold split_block. simpl.
  by rewrite omap_replicate_None.
Qed.

Lemma fit_inputs_blocks X y ne md n (ps : list Partition) :
  fit_inputs (ps ≫= split_block X y ne md n) = ps ≫= replicate n.
Proof.
  unfold fit_inputs. induction ps as [|p ps IH]; [done|].
  rewrite !bind_cons, omap_app, IH. unfold split_block. simpl.
  by erewrite omap_replicate_Some.
Qed.

Lemma round_lines_blocks X y ne md n (ps : list Partition) :
  round_lines (ps ≫= split_block X y ne md n) = [].
Proof.
  unfold round_lines. induction ps as [|p ps IH]; [done|].
  rewrite bind_cons, omap_app, IH, app_nil_r. unfold split_block. simpl.
  by rewrite omap_replicate_None.
Qed.

Lemma split_outputs_rounds y (rs : list RoundInfo) :
  split_outputs (rs ≫= round_trace y) = rs ≫= r_parts.
Proof.
  induction rs as [|r rs IH]; [done|].
  rewrite !bind_cons. unfold split_outputs in *. rewrite omap_app, IH.
  f_equal. unfold round_trace. rewrite omap_app. simpl. rewrite app_nil_r.
  apply split_outputs_blocks.
Qed.

Lemma fit_inputs_rounds y (rs : list RoundInfo) :
  fit_inputs (rs ≫= round_trace y) = (rs ≫= r_parts) ≫= replicate 5.
Proof.
  induction rs as [|r rs IH]; [done|].
  rewrite !bind_cons, bind_app. unfold fit_inputs in *. rewrite omap_app, IH.
  f_equal. unfold round_trace. rewrite omap_app. simpl. rewrite app_nil_r.
  apply fit_inputs_blocks.
Qed.

Lemma split_inputs_rounds y (rs : list RoundInfo) :
  split_inputs (rs ≫= round_trace y)
  = rs ≫= (λ r, replicate (length (r_parts r)) (r_active r)).
Proof.
  induction rs as [|r rs IH]; [done|].
  rewrite !bind_cons. unfold split_inputs in *. rewrite omap_app, IH.
  f_equal. unfold round_trace. rewrite omap_app. simpl. rewrite app_nil_r.
  apply split_inputs_blocks.
Qed.

Lemma round_lines_rounds y (rs : list RoundInfo) :
  round_lines (rs ≫= round_trace y)
  = (λ r, (remaining r, r_dropped r)) <$> rs.
Proof.
  induction rs as [|r rs IH]; [done|].
  rewrite bind_cons, fmap_cons. unfold round_lines in *. rewrite omap_app, IH.
  f_equal. unfold round_trace. rewrite omap_app. simpl.
  pose proof (round_lines_blocks (r_active r) y 20 1 5 (r_parts r)) as Hb.
  unfold round_lines in Hb. by rewrite Hb.
Qed.

Lemma length_bind_parts (X : DataFrame) names rs :
  rounds_spec X names rs → length (rs ≫= r_parts) = 5 * length names.
Proof.
  intros Hrs. rewrite <- (rounds_spec_length _ _ _ Hrs).
  apply rounds_spec_parts in Hrs.
  induction Hrs as [|r rs Hr Hrs IH]; [done|].
  rewrite bind_cons, length_app, IH, Hr. simpl. lia.
Qed.

(** *** One run of the experiment *)

Lemma drop_feature_experiment_spec (ds pre : DataFrame) (labels : Series)
    (w : World) :
  read_csv "responder.csv" = Ok ds →
  preprocess_dataset ds = Ok (labels, pre) →
  NoDup (columns pre) →
  ∃ (p : Partition) (rs : list RoundInfo) (w' : World),
    (sk_train_test_split (random_state w) pre labels (1 # 5)).1 = p
    ∧ rounds_spec p.1.1.1 (columns pre) rs
    ∧ drop_feature_experiment w = Ok (drop_record rs, w')
    ∧ history w' = history w
        ++ EvSplit pre labels p :: rs ≫= round_trace p.1.2.
Proof.
  intros Hcsv Hpre Hnd. unfold drop_feature_experiment.
  erewrite bind_Ok; last first.
  { unfold load_dataset. erewrite bind_liftR_Ok by exact Hcsv. done. }
  erewrite bind_liftR_Ok by exact Hpre. simpl.
  pose proof (split_columns (random_state w) pre labels (1 # 5)) as Hcols.
  unfold mbind at 1, M_bind at 1, train_test_split at 1.
  destruct (sk_train_test_split _ _ _ _) as [[[[X_train X_test] y_train] y_test] g].
  simpl in Hcols.
  set (w1 := {| random_state := g |}).
  destruct (elimination_loop_spec X_train y_train w1)
    as (rs & w' & Hloop & Hrs & Hh); [by rewrite Hcols|].
  exists (X_train, X_test, y_train, y_test), rs, w'. simpl.
  split; [done|]. split; [by rewrite <- Hcols|]. split; [done|].
  rewrite Hh. subst w1. simpl. by rewrite <- app_assoc.
Qed.

(** *** Merging the runs *)

Lemma merge_item_lookup (acc : gmap string (list nat)) (k f : string)
    (b : list nat) :
  merge_item acc (k, b) !! f
  = if decide (f = k) then Some (default [] (acc !! k) ++ b) else acc !! f.
Proof.
  unfold merge_item. case_decide as Hf.
  - subst f. destruct (acc !! k) as [a|] eqn:Ha; by rewrite lookup_insert_eq.
  - destruct (acc !! k); by rewrite lookup_insert_ne.
Qed.

Lemma foldl_merge_item_lookup (l : list (string * list nat))
    (acc : gmap string (list nat)) (f : string) :
  NoDup l.*1 →
  foldl merge_item acc l !! f
  = match (list_to_map l : gmap string (list nat)) !! f with
    | Some b => Some (default [] (acc !! f) ++ b)
    | None => acc !! f
    end.
Proof.
  revert acc. induction l as [|[k b] l IH]; intros acc Hnd; [done|].
  rewrite fmap_cons in Hnd. apply NoDup_cons in Hnd as [Hk Hnd].
  change (foldl merge_item acc ((k, b) :: l))
    with (foldl merge_item (merge_item acc (k, b)) l).
  rewrite IH, list_to_map_cons, merge_item_lookup by done.
  destruct (decide (f = k)) as [->|Hne].
  - rewrite lookup_insert_eq.
    by rewrite (not_elem_of_list_to_map_1 l k) by done.
  - by rewrite lookup_insert_ne by done.
Qed.

Lemma merge_run_lookup (r acc : gmap string (list nat)) (f : string) :
  foldl merge_item acc (map_to_list r) !! f
  = match r !! f with
    | Some b => Some (default [] (acc !! f) ++ b)
    | None => acc !! f
    end.
Proof.
  rewrite foldl_merge_item_lookup by apply NoDup_fst_map_to_list.
  by rewrite list_to_map_to_list.
Qed.

Lemma merge_runs_lookup (runs : list (gmap string (list nat)))
    (acc : gmap string (list nat)) (f : string) :
  Forall (λ r, is_Some (r !! f)) runs → runs ≠ [] →
  foldl (λ a r, foldl merge_item a (map_to_list r)) acc runs !! f
  = Some (default [] (acc !! f) ++ column_of f runs).
Proof.
  intros Hall. revert acc.
  induction Hall as [|r runs [b Hb] Hall IH]; intros acc Hne; [done|].
  cbn [foldl]. unfold column_of in *. rewrite bind_cons, Hb.
  destruct runs as [|r' runs].
  - cbn [foldl]. rewrite merge_run_lookup, Hb. simpl. by rewrite app_nil_r.
  - rewrite IH by done. rewrite merge_run_lookup, Hb. simpl.
    by rewrite <- app_assoc.
Qed.

Lemma merge_runs_lookup_None (runs : list (gmap string (list nat)))
    (acc : gmap string (list nat)) (f : string) :
  Forall (λ r, r !! f = None) runs →
  foldl (λ a r, foldl merge_item a (map_to_list r)) acc runs !! f = acc !! f.
Proof.
  intros Hall. revert acc.
  induction Hall as [|r runs Hr Hall IH]; intros acc; [done|].
  simpl. by rewrite IH, merge_run_lookup, Hr.
Qed.

(** *** Descending order *)

Lemma Sorted_at_least_countdown (k : nat) :
  Sorted at_least (reverse (seq 0 k)).
Proof.
  induction k as [|k IH]; [constructor|].
  rewrite seq_S, reverse_snoc. simpl. constructor; [done|].
  destruct k as [|k]; [constructor|].
  rewrite seq_S, reverse_snoc. simpl. constructor. unfold at_least. lia.
Qed.

Lemma sort_descending_countdown (l : list nat) (k : nat) :
  l ≡ₚ seq 0 k → sort_descending l = reverse (seq 0 k).
Proof.
  intros Hperm. unfold sort_descending.
  apply (Sorted_unique at_least).
  - apply Sorted_merge_sort, _.
  - apply Sorted_at_least_countdown.
  - by rewrite merge_sort_Permutation, Hperm, reverse_Permutation.
Qed.

Lemma last_bind_replicate (rs : list RoundInfo) (r : RoundInfo) :
  last rs = Some r → r_parts r ≠ [] →
  last (rs ≫= (λ r, replicate (length (r_parts r)) (r_active r)))
  = Some (r_active r).
Proof.
  intros [rs' ->]%last_Some Hparts.
  rewrite bind_app, bind_cons. simpl. rewrite app_nil_r.
  destruct (r_parts r) as [|p ps]; [done|]. simpl.
  rewrite replicate_cons_app, app_assoc. apply last_snoc.
Qed.

End Loops.

(** ** Traces replay the library *)

Section Replay.
Context {L : Library}.

Lemma replays_app (g g' g'' : rng) (tr1 tr2 : list event) :
  replays g tr1 g' → replays g' tr2 g'' → replays g (tr1 ++ tr2) g''.
Proof.
  induction 1; intros H2; simpl; [done|..]; econstructor; eauto.
Qed.

Lemma traced_ret {A : Type} (a : A) : traced (mret a).
Proof.
  intros w a' w' [= <- <-]. exists []. rewrite app_nil_r.
  split; [done|constructor].
Qed.

Lemma traced_liftR {A : Type} (r : result A) : traced (liftR r).
Proof.
  intros w a w' H. unfold liftR in H. destruct r; [|done].
  inversion H; subst. exists []. rewrite app_nil_r.
  split; [done|constructor].
Qed.

Lemma traced_bind {A B : Type} (c : M A) (f : A → M B) :
  traced c → (∀ a, traced (f a)) → traced (c ≫= f).
Proof.
  intros Hc Hf w b w' H. unfold mbind, M_bind in H.
  destruct (c w) as [[a w1]|] eqn:Hcw; [|done].
  destruct (Hc _ _ _ Hcw) as (tr1 & Hh1 & Hr1).
  destruct (Hf a _ _ _ H) as (tr2 & Hh2 & Hr2).
  exists (tr1 ++ tr2). split.
  - by rewrite Hh2, Hh1, <- app_assoc.
  - by eapply replays_app.
Qed.

Lemma traced_print (l : line) : traced (print l).
Proof.
  intros w a w' [= <- <-]. exists [EvPrint l]. simpl.
  split; [done|]. repeat constructor.
Qed.

Lemma traced_train_test_split (X : DataFrame) (y : Series) :
  traced (train_test_split X y (1 # 5)).
Proof.
  intros w a w' H. unfold train_test_split in H.
  destruct (sk_train_test_split _ _ _ _) as [out g] eqn:Hsplit.
  inversion H; subst. exists [EvSplit X y a]. simpl.
  split; [done|]. econstructor; [done|constructor].
Qed.

Lemma traced_fit_forest (p : Partition) (n_estimators max_depth : Z) :
  traced (fit_forest p n_estimators max_depth).
Proof.
  intros w a w' H. unfold fit_forest in H.
  destruct p as [[[X_train X_test] y_train] y_test].
  destruct (rf_fit _ _ _ _ _) as [f g] eqn:Hfit.
  inversion H; subst. exists [EvFit (X_train, X_test, y_train, y_test)
                                    n_estimators max_depth]. simpl.
  split; [done|]. econstructor; [done|constructor].
Qed.

Lemma traced_for_range {St : Type} (n : nat) (body : St → M St) (s : St) :
  (∀ s, traced (body s)) → traced (for_range n body s).
Proof.
  intros Hbody. revert s. induction n as [|n IH]; intros s; simpl.
  - apply traced_ret.
  - apply traced_bind; [done|]. intros s'. apply IH.
Qed.

Lemma traced_random_forest_fit_predict X_train X_test y_train y_test
    n_estimators max_depth :
  traced (random_forest_fit_predict X_train X_test y_train y_test
            n_estimators max_depth).
Proof.
  unfold random_forest_fit_predict.
  apply traced_bind; [apply traced_fit_forest|]. intros f.
  apply traced_bind; [apply traced_liftR|]. intros fi. apply traced_ret.
Qed.

Lemma traced_avg_random_forest_fit_predict X_train X_test y_train y_test
    n_estimators max_depth n_iterations :
  traced (avg_random_forest_fit_predict X_train X_test y_train y_test
            n_estimators max_depth n_iterations).
Proof.
  unfold avg_random_forest_fit_predict.
  apply traced_bind.
  - apply traced_for_range. intros [[ta va] fa].
    apply traced_bind; [apply traced_random_forest_fit_predict|].
    intros [[tl vl] fi].
    apply traced_bind; [apply traced_liftR|]. intros fa'. apply traced_ret.
  - intros [[ta va] fa].
    apply traced_bind; [apply traced_liftR|]. intros a.
    apply traced_bind; [apply traced_liftR|]. intros b.
    apply traced_bind; [apply traced_liftR|]. intros fi. apply traced_ret.
Qed.

Lemma traced_multisplit_avg_random_forest_fit_predict X_train y_train
    n_estimators max_depth n_forest_iterations n_dataset_iterations :
  traced (multisplit_avg_random_forest_fit_predict X_train y_train
            n_estimators max_depth n_forest_iterations n_dataset_iterations).
Proof.
  unfold multisplit_avg_random_forest_fit_predict.
  apply traced_bind.
  - apply traced_for_range. intros [[ta va] fa].
    apply traced_bind; [apply traced_train_test_split|].
    intros [[[Xl Xv] yl] yv].
    apply traced_bind; [apply traced_avg_random_forest_fit_predict|].
    intros [[tl vl] fi].
    apply traced_bind; [apply traced_liftR|]. intros fa'. apply traced_ret.
  - intros [[ta va] fa].
    apply traced_bind; [apply traced_liftR|]. intros a.
    apply traced_bind; [apply traced_liftR|]. intros b.
    apply traced_bind; [apply traced_liftR|]. intros fi. apply traced_ret.
Qed.

Lemma traced_elimination_round X_train y_train st :
  traced (elimination_round X_train y_train st).
Proof.
  unfold elimination_round.
  apply traced_bind; [apply traced_liftR|]. intros X_active.
  apply traced_bind;
    [apply traced_multisplit_avg_random_forest_fit_predict|].
  intros [[tl vl] fi].
  apply traced_bind; [apply traced_liftR|]. intros i.
  apply traced_bind; [apply traced_liftR|]. intros least.
  apply traced_bind; [apply traced_liftR|]. intros names.
  apply traced_bind; [apply traced_liftR|]. intros d.
  apply traced_bind; [apply traced_print|]. intros []. apply traced_ret.
Qed.

Lemma traced_while_rounds X_train y_train st :
  traced (while_rounds X_train y_train st).
Proof.
  intros w. funelim (while_rounds X_train y_train st w);
    try clear Heqcall; intros a w2 Hloop.
  - inversion Hloop; subst. exists []. rewrite app_nil_r.
    split; [done|constructor].
  - destruct (traced_elimination_round _ _ _ _ _ _ Hround)
      as (tr1 & Hh1 & Hr1).
    destruct (H _ _ Hloop) as (tr2 & Hh2 & Hr2).
    exists (tr1 ++ tr2). split.
    + by rewrite Hh2, Hh1, <- app_assoc.
    + by eapply replays_app.
  - done.
Qed.

Lemma traced_drop_feature_experiment : traced drop_feature_experiment.
Proof.
  unfold drop_feature_experiment.
  apply traced_bind.
  { unfold load_dataset. apply traced_bind; [apply traced_liftR|].
    intros df. apply traced_ret. }
  intros dataset. apply traced_bind; [apply traced_liftR|].
  intros [labels pre].
  apply traced_bind; [apply traced_train_test_split|].
  intros [[[X_train X_test] y_train] y_test].
  unfold elimination_loop.
  apply traced_bind; [apply traced_while_rounds|]. intros st.
  apply traced_ret.
Qed.

Lemma rounds_spec_active (X : DataFrame) names rs :
  rounds_spec X names rs →
  Forall (λ r, length (r_parts r) = 5
               ∧ ∃ active : list string,
                   active `sublist_of` names
                   ∧ select_columns X active = Ok (r_active r)) rs.
Proof.
  induction 1 as [|names r rs i Hsel Hps Hi Hrs IH]; constructor.
  - split; [done|]. by exists names.
  - eapply Forall_impl; [exact IH|]. intros r' [Hp (active & Hsub & Ha)].
    split; [done|]. exists active. split; [|done].
    etrans; [exact Hsub|]. apply sublist_delete.
Qed.

Context {C : LibraryContract L}.

Lemma experiment_chain_S (n : nat) (i n_runs : Z) (w w3 : World)
    (r : gmap string (list nat)) :
  drop_feature_experiment
    {| random_state := random_state w;
       history := history w ++ [EvPrint (ExperimentLine (i + 1) n_runs)] |}
  = Ok (r, w3) →
  experiment_chain (S n) i n_runs w
  = (r :: (experiment_chain n (i + 1) n_runs w3).1,
     (experiment_chain n (i + 1) n_runs w3).2).
Proof.
  intros Hrun. cbn [experiment_chain].
  assert ((print (ExperimentLine (i + 1) n_runs)
           ≫= λ _ : (), drop_feature_experiment) w = Ok (r, w3)) as ->
    by exact Hrun.
  by destruct (experiment_chain n (i + 1) n_runs w3).
Qed.

(** The runs of a chain: every run of [drop_feature_experiment] on a table
    that preprocesses to [pre] returns the record of its rounds. *)
Lemma experiment_chain_spec (ds pre : DataFrame) (labels : Series)
    (n : nat) (i n_runs : Z) (w : World) :
  read_csv "responder.csv" = Ok ds →
  preprocess_dataset ds = Ok (labels, pre) →
  NoDup (columns pre) →
  ∃ (ws : list World),
    length (experiment_chain n i n_runs w).1 = n
    ∧ Forall2 (λ w0 r, ∃ w1, drop_feature_experiment w0 = Ok (r, w1))
              ws (experiment_chain n i n_runs w).1
    ∧ Forall (λ r, ∃ X rs, r = drop_record rs
                           ∧ rounds_spec X (columns pre) rs)
             (experiment_chain n i n_runs w).1.
Proof.
  intros Hcsv Hpre Hnd. revert i w.
  induction n as [|n IH]; intros i w.
  - exists []. simpl. by repeat split.
  - set (w2 := {| random_state := random_state w;
                  history := history w
                             ++ [EvPrint (ExperimentLine (i + 1) n_runs)] |}).
    destruct (drop_feature_experiment_spec ds pre labels w2 Hcsv Hpre Hnd)
      as (p & rs & w3 & _ & Hrs & Hrun & _).
    rewrite (experiment_chain_S _ _ _ _ _ _ Hrun).
    destruct (IH (i + 1)%Z w3) as (ws & Hlen & Hruns & Hspec).
    cbn [fst snd]. exists (w2 :: ws).
    split; [simpl; by rewrite Hlen|].
    split; [constructor; [by eexists|done]|].
    constructor; [by eexists _, _|done].
Qed.

Lemma experiment_loop_is_fold
    (body : Z * gmap string (list nat) → M (Z * gmap string (list nat)))
    (ds pre : DataFrame) (labels : Series) (n_runs : Z) (n : nat) :
  read_csv "responder.csv" = Ok ds →
  preprocess_dataset ds = Ok (labels, pre) →
  NoDup (columns pre) →
  (∀ i acc,
     body (i, acc)
     = (_ ← print (ExperimentLine (i + 1) n_runs);
        curr ← drop_feature_experiment;
        mret ((i + 1)%Z, foldl merge_item acc (map_to_list curr)))) →
  ∀ (i : Z) (acc : gmap string (list nat)) (w : World),
    for_range n body (i, acc) w
    = Ok (((i + Z.of_nat n)%Z,
           foldl (λ a r, foldl merge_item a (map_to_list r)) acc
                 (experiment_chain n i n_runs w).1),
          (experiment_chain n i n_runs w).2).
Proof.
  intros Hcsv Hpre Hnd Hbody. induction n as [|n IH]; intros i acc w.
  - simpl. unfold mret, M_ret. do 3 f_equal. lia.
  - set (w2 := {| random_state := random_state w;
                  history := history w
                             ++ [EvPrint (ExperimentLine (i + 1) n_runs)] |}).
    destruct (drop_feature_experiment_spec ds pre labels w2 Hcsv Hpre Hnd)
      as (p & rs & w3 & _ & Hrs & Hrun & _).
    rewrite (experiment_chain_S _ _ _ _ _ _ Hrun).
    cbn [for_range fst snd foldl].
    erewrite bind_Ok; last first.
    { rewrite Hbody.
      change ((print (ExperimentLine (i + 1) n_runs) ≫= ?k) w)
        with (k () w2).
      cbn beta. erewrite bind_Ok by exact Hrun. done. }
    rewrite IH. do 3 f_equal. lia.
Qed.

End Replay.

Section Claims.
Context {L : Library}.

(** C7. On a numeric table with distinct column labels, [impute_dataset]
    returns a table with the same columns in which every missing cell holds
    the median of the non-missing values of its column (NaN when the column
    has none), every other cell is as it was, and a column without missing
    cells is unchanged. *)
Theorem impute_dataset_fills_with_column_median (dataset : DataFrame) :
  NoDup (columns dataset) →
  numeric dataset = true →
  ∃ imputed : DataFrame,
    impute_dataset dataset = Ok imputed
    ∧ columns imputed = columns dataset
    ∧ ∀ (j : nat) (name : string) (col : Series),
        dataset !! j = Some (name, col) →
        ∃ col' : Series,
          imputed !! j = Some (name, col')
          ∧ length col' = length col
          ∧ (∀ i : nat, col !! i = Some NA →
               col' !! i = Some (median_of (non_missing col)))
          ∧ (∀ (i : nat) (c : cell), col !! i = Some c → c ≠ NA →
               col' !! i = Some c)
          ∧ (NA ∉ col → col' = col).
Proof.
  intros Hnd Hnum. unfold impute_dataset.
  rewrite (df_median_numeric _ Hnum). simpl.
  eexists. split; [done|]. split.
  { unfold fillna, columns. rewrite <- list_fmap_compose.
    apply list_fmap_ext. by intros ? [??]. }
  intros j name col Hj.
  pose proof (assoc_fmap_lookup (λ c, median_of (non_missing c.2)) _ _ _ _ Hnd Hj)
    as Hm. simpl in Hm.
  exists (map (fill_cell (Some (median_of (non_missing col)))) col).
  split; [|split; [|split; [|split]]].
  - unfold fillna. rewrite list_lookup_fmap, Hj. simpl. by rewrite Hm.
  - by rewrite length_map.
  - intros i Hi. by rewrite list_lookup_fmap, Hi.
  - intros i c Hi Hc. rewrite list_lookup_fmap, Hi. by destruct c.
  - apply fill_cell_no_NA.
Qed.

(** C9. [load_dataset] returns the frame of the CSV reader as it is (and
    raises what the reader raises); the frame computed by [replace] takes
    no part in the result. *)
Theorem load_dataset_returns_reader_frame (file_path : string) (w : World) :
  load_dataset file_path w =
  match read_csv file_path with
  | Ok df => Ok (df, w)
  | Raise e => Raise e
  end.
Proof.
  unfold load_dataset, mbind, M_bind, liftR.
  by destruct (read_csv file_path).
Qed.

(** C10. With [n_iterations = 0] the loop of
    [avg_random_forest_fit_predict] returns the initial totals without
    touching the world, and the call raises ZeroDivisionError. *)
Theorem avg_random_forest_fit_predict_zero_iterations
    (X_train X_test : DataFrame) (y_train y_test : Series)
    (n_estimators max_depth : Z) (w : World) :
  (∀ (St : Type) (body : St → M St) (s : St),
     for_range (Z.to_nat 0) body s w = Ok (s, w))
  ∧ avg_random_forest_fit_predict X_train X_test y_train y_test
      n_estimators max_depth 0 w = Raise ZeroDivisionError.
Proof. done. Qed.

(** C6. With [n_iterations = 1], [avg_random_forest_fit_predict] returns
    what one call of [random_forest_fit_predict] on the same arguments
    returns from the same world: the same losses, the same importance
    frame, the same next world, or the same exception. *)
Theorem avg_random_forest_fit_predict_one_iteration
    (X_train X_test : DataFrame) (y_train y_test : Series)
    (n_estimators max_depth : Z) (w : World) :
  avg_random_forest_fit_predict X_train X_test y_train y_test
    n_estimators max_depth 1 w
  = random_forest_fit_predict X_train X_test y_train y_test
      n_estimators max_depth w.
Proof.
  unfold avg_random_forest_fit_predict, random_forest_fit_predict.
  change (Z.to_nat 1) with 1. simpl.
  unfold mbind, M_bind, fit_forest, liftR, importance_frame, mret, M_ret.
  destruct (rf_fit _ _ _ _ _) as [f g]. simpl.
  destruct (decide (length (rf_feature_importances f) = length (columns X_train)))
    as [Hlen|Hlen]; simpl; [|done].
  unfold columns in Hlen. rewrite length_fmap in Hlen.
  unfold np_iadd.
  rewrite decide_True by (by unfold np_zeros; rewrite length_replicate).
  rewrite <- Hlen, zip_with_zeros. simpl.
  change (inject_Z 0) with 0%Q.
  rewrite !Qplus_0_l_eq, !Qdiv_1_r_eq, np_truediv_1.
  rewrite decide_True by (by unfold columns; rewrite length_fmap).
  done.
Qed.

Context {C : LibraryContract L}.

(** C4. In a round of the loop the name removed is the one at the first
    position where the averaged importance is minimal: no importance is
    smaller, and every importance before it is strictly larger.  The number
    appended to the record of that name is the length of the active list
    after the removal. *)
Theorem elimination_round_drops_first_least_important
    (X_train : DataFrame) (y_train : Series) (st : LoopState) (w : World) :
  feature_names st ≠ [] →
  NoDup (feature_names st) →
  (∀ f, f ∈ feature_names st → f ∈ columns X_train) →
  (∀ f, f ∈ feature_names st → is_Some (feature_drop_iterations st !! f)) →
  ∃ (X_active : DataFrame) (training_loss validation_loss : pynum)
    (feature_importances : ImportanceFrame) (w1 : World)
    (i : nat) (least : string) (v : Q) (old : list nat)
    (st' : LoopState) (w' : World),
    select_columns X_train (feature_names st) = Ok X_active
    ∧ multisplit_avg_random_forest_fit_predict X_active y_train 20 1 5 5 w
      = Ok ((training_loss, validation_loss, feature_importances), w1)
    ∧ index feature_importances = feature_names st
    ∧ feature_names st !! i = Some least
    ∧ feature_importance feature_importances !! i = Some v
    ∧ (∀ j v', feature_importance feature_importances !! j = Some v' →
         (v <= v')%Q)
    ∧ (∀ j v', j < i →
         feature_importance feature_importances !! j = Some v' → (v < v')%Q)
    ∧ elimination_round X_train y_train st w = Ok (st', w')
    ∧ feature_names st' = delete i (feature_names st)
    ∧ feature_drop_iterations st !! least = Some old
    ∧ feature_drop_iterations st'
      = <[least := old ++ [length (feature_names st')]]>
          (feature_drop_iterations st).
Proof.
  intros Hne Hnd Hcols Hkeys.
  destruct (elimination_round_spec X_train y_train st w Hne Hnd Hcols Hkeys)
    as (r & fi & w1 & i & v & Hsel & Hact & _ & Hms & Hidx & Hi & Hv & Hmin
        & Hfirst & Hround).
  destruct (Hkeys (r_dropped r)) as [old Hold];
    [by eapply list_elem_of_lookup_2|].
  eexists (r_active r), _, _, fi, w1, i, (r_dropped r), v, old, _, _.
  repeat (split; [eassumption|]). simpl. split; [done|]. split; [done|].
  unfold record_drop, remaining.
  rewrite length_delete by eauto.
  rewrite (select_columns_length _ _ _ Hsel).
  apply map_eq. intros k. destruct (decide (r_dropped r = k)) as [<-|Hk].
  - by rewrite lookup_alter_eq, lookup_insert_eq, Hold.
  - by rewrite lookup_alter_ne, lookup_insert_ne.
Qed.

(** C2. On a training frame with [k >= 1] distinct columns the loop
    returns after [k] rounds (it prints [k] round lines); the keys of the
    drop record are the [k] column names, each with a one-element sequence;
    the last round splits a frame whose only column is the feature it
    eliminates, with 0 features left, and that feature is recorded with
    0. *)
Theorem elimination_loop_runs_k_rounds
    (X_train : DataFrame) (y_train : Series) (w : World) (k : nat) :
  NoDup (columns X_train) →
  length (columns X_train) = k →
  1 ≤ k →
  ∃ (d : gmap string (list nat)) (w' : World) (tr : list event)
    (f_last : string) (X_last : DataFrame),
    elimination_loop X_train y_train w = Ok (d, w')
    ∧ history w' = history w ++ tr
    ∧ length (round_lines tr) = k
    ∧ dom d = list_to_set (columns X_train)
    ∧ (∀ f, f ∈ columns X_train → ∃ v, d !! f = Some [v])
    ∧ last (split_inputs tr) = Some X_last
    ∧ columns X_last = [f_last]
    ∧ last (round_lines tr) = Some (0, f_last)
    ∧ d !! f_last = Some [0].
Proof.
  intros Hnd Hk Hk1.
  destruct (elimination_loop_spec X_train y_train w Hnd)
    as (rs & w' & Hloop & Hrs & Hh).
  pose proof (rounds_spec_dropped _ _ _ Hrs) as Hperm.
  assert (NoDup (r_dropped <$> rs)) as Hnd' by by rewrite Hperm.
  destruct (rounds_spec_last _ _ _ Hrs)
    as (r & Hlast & Hcols & Hrem & Hparts).
  { intros Hnil. rewrite Hnil in Hk. simpl in Hk. lia. }
  exists (drop_record rs), w', (rs ≫= round_trace y_train),
    (r_dropped r), (r_active r).
  split; [done|]. split; [done|]. split.
  { rewrite round_lines_rounds, length_fmap.
    by rewrite (rounds_spec_length _ _ _ Hrs). }
  split; [by eapply dom_drop_record|]. split.
  { intros f Hf. rewrite <- Hperm in Hf.
    apply list_elem_of_fmap in Hf as (r' & -> & Hr').
    exists (remaining r'). by apply drop_record_lookup. }
  split; [by rewrite split_inputs_rounds; apply last_bind_replicate|].
  split; [done|]. split.
  { by rewrite round_lines_rounds, fmap_last, Hlast, <- Hrem. }
  rewrite <- Hrem. apply drop_record_lookup; [done|].
  by apply last_Some_elem_of.
Qed.

(** C3. On a training frame with [k] distinct columns, the numbers
    recorded in the drop record of one run, sorted in descending order, are
    [k-1, k-2, ..., 0]. *)
Theorem elimination_loop_records_countdown
    (X_train : DataFrame) (y_train : Series) (w : World) (k : nat) :
  NoDup (columns X_train) →
  length (columns X_train) = k →
  ∃ (d : gmap string (list nat)) (w' : World),
    elimination_loop X_train y_train w = Ok (d, w')
    ∧ sort_descending (recorded d) = reverse (seq 0 k).
Proof.
  intros Hnd Hk.
  destruct (elimination_loop_spec X_train y_train w Hnd)
    as (rs & w' & Hloop & Hrs & Hh).
  exists (drop_record rs), w'. split; [done|].
  apply sort_descending_countdown. rewrite <- Hk.
  by eapply recorded_drop_record.
Qed.

(** C1, as the code has it.  One run of [drop_feature_experiment] over [k]
    features splits once before the loop (the whole preprocessed table,
    giving [p0]) and then runs [k] rounds [rs].  The trace of the run is
    that split followed by the traces of the rounds, one after the other:
    in every round five splits of the training frame of [p0] restricted to
    the columns still active, with the training labels of [p0], each one
    followed by the five fits of [avg_random_forest_fit_predict] on the
    partition this split returned, and then the round line.  The trace
    replays the library: every split in it is the split the library
    returns in the random state reached at that point.  So the loop splits
    [5 * k] times, and the fits of the run are, in order, five on the
    partition of each of these splits. *)
Theorem drop_feature_experiment_splits_five_times_per_round
    (ds pre : DataFrame) (labels : Series) (w : World) :
  read_csv "responder.csv" = Ok ds →
  preprocess_dataset ds = Ok (labels, pre) →
  NoDup (columns pre) →
  ∃ (d : gmap string (list nat)) (w' : World) (tr : list event)
    (p0 : Partition) (local : list Partition) (rs : list RoundInfo),
    drop_feature_experiment w = Ok (d, w')
    ∧ history w' = history w ++ tr
    ∧ (sk_train_test_split (random_state w) pre labels (1 # 5)).1 = p0
    ∧ tr = EvSplit pre labels p0 :: rs ≫= round_trace p0.1.2
    ∧ replays (random_state w) tr (random_state w')
    ∧ rounds_spec p0.1.1.1 (columns pre) rs
    ∧ length rs = length (columns pre)
    ∧ Forall (λ r, length (r_parts r) = 5
                   ∧ ∃ active : list string,
                       active `sublist_of` columns pre
                       ∧ select_columns p0.1.1.1 active = Ok (r_active r)) rs
    ∧ local = rs ≫= r_parts
    ∧ head (split_inputs tr) = Some pre
    ∧ split_outputs tr = p0 :: local
    ∧ length local = 5 * length (columns pre)
    ∧ fit_inputs tr = local ≫= replicate 5.
Proof.
  intros Hcsv Hpre Hnd.
  destruct (drop_feature_experiment_spec ds pre labels w Hcsv Hpre Hnd)
    as (p & rs & w' & Hp & Hrs & Hrun & Hh).
  destruct (traced_drop_feature_experiment _ _ _ Hrun) as (tr & Htr & Hrep).
  rewrite Hh in Htr. apply app_inv_head in Htr. subst tr.
  exists (drop_record rs), w',
    (EvSplit pre labels p :: rs ≫= round_trace p.1.2), p, (rs ≫= r_parts), rs.
  split; [done|]. split; [done|]. split; [done|]. split; [done|].
  split; [done|]. split; [done|].
  split; [by eapply rounds_spec_length|].
  split; [by eapply rounds_spec_active|].
  split; [done|]. split; [done|]. split.
  { change (split_outputs (EvSplit pre labels p :: ?t))
      with (p :: split_outputs t).
    by rewrite split_outputs_rounds. }
  split; [by eapply length_bind_parts|].
  change (fit_inputs (EvSplit pre labels p :: ?t)) with (fit_inputs t).
  apply fit_inputs_rounds.
Qed.

(** C5. With [n_runs = N >= 1], [avg_drop_feature_experiment] makes [N]
    runs of [drop_feature_experiment] one after the other, each after its
    experiment line and each from the world the run before it left: [runs]
    are their records, in this order, and [w'] is the world after the last
    one.  The record returned has the feature names as its keys, and every
    feature has in it the [N] numbers recorded for it by these runs, in the
    order of the runs. *)
Theorem avg_drop_feature_experiment_collects_runs
    (ds pre : DataFrame) (labels : Series) (n_runs : Z) (w : World) :
  read_csv "responder.csv" = Ok ds →
  preprocess_dataset ds = Ok (labels, pre) →
  NoDup (columns pre) →
  (1 ≤ n_runs)%Z →
  ∃ (feature_drop_counts : gmap string (list nat)) (w' : World)
    (runs : list (gmap string (list nat))) (ws : list World),
    avg_drop_feature_experiment n_runs w = Ok (feature_drop_counts, w')
    ∧ experiment_chain (Z.to_nat n_runs) 0 n_runs w = (runs, w')
    ∧ length runs = Z.to_nat n_runs
    ∧ Forall2 (λ w0 r, ∃ w1, drop_feature_experiment w0 = Ok (r, w1)) ws runs
    ∧ dom feature_drop_counts = list_to_set (columns pre)
    ∧ ∀ f, f ∈ columns pre →
        ∃ vs : list nat,
          feature_drop_counts !! f = Some vs
          ∧ length vs = Z.to_nat n_runs
          ∧ Forall2 (λ r v, r !! f = Some [v]) runs vs.
Proof.
  intros Hcsv Hpre Hnd Hn. unfold avg_drop_feature_experiment.
  set (merge := λ (a : gmap string (list nat)) r,
                  foldl merge_item a (map_to_list r)).
  destruct (experiment_chain_spec ds pre labels (Z.to_nat n_runs) 0 n_runs w
              Hcsv Hpre Hnd) as (ws & Hlen & Hruns & Hspec).
  erewrite bind_Ok; last first.
  { by eapply (experiment_loop_is_fold _ ds pre labels n_runs). }
  destruct (experiment_chain (Z.to_nat n_runs) 0 n_runs w) as [runs w']
    eqn:Hchain.
  cbn [fst snd] in *.
  exists (foldl merge ∅ runs), w', runs, ws.
  split; [done|]. split; [done|]. split; [done|]. split; [done|].
  assert (runs ≠ []) as Hne.
  { intros ->. simpl in Hlen. lia. }
  assert (∀ f, f ∈ columns pre →
            Forall (λ r : gmap string (list nat), ∃ v, r !! f = Some [v]) runs)
    as Hin.
  { intros f Hf. eapply Forall_impl; [exact Hspec|].
    intros r (X & rs & -> & Hrs). simpl.
    pose proof (rounds_spec_dropped _ _ _ Hrs) as Hperm.
    rewrite <- Hperm in Hf.
    apply list_elem_of_fmap in Hf as (r' & -> & Hr').
    exists (remaining r'). apply drop_record_lookup; [|done].
    by rewrite Hperm. }
  assert (∀ f, f ∉ columns pre →
            Forall (λ r : gmap string (list nat), r !! f = None) runs)
    as Hout.
  { intros f Hf. eapply Forall_impl; [exact Hspec|].
    intros r (X & rs & -> & Hrs). simpl.
    apply drop_record_lookup_None.
    by rewrite (rounds_spec_dropped _ _ _ Hrs). }
  split.
  { apply set_eq. intros f. rewrite elem_of_dom, elem_of_list_to_set.
    destruct (decide (f ∈ columns pre)) as [Hf|Hf].
    - unfold merge. rewrite merge_runs_lookup; [done| |done].
      eapply Forall_impl; [exact (Hin f Hf)|]. by intros r [v ->].
    - unfold merge. rewrite merge_runs_lookup_None by auto.
      rewrite lookup_empty. split; [by intros [??]|done]. }
  intros f Hf. exists (column_of f runs).
  unfold merge. rewrite merge_runs_lookup; [|  |done]; last first.
  { eapply Forall_impl; [exact (Hin f Hf)|]. by intros r [v ->]. }
  rewrite lookup_empty. simpl. split; [done|].
  rewrite <- Hlen. specialize (Hin f Hf). clear -Hin.
  unfold column_of. induction Hin as [|r runs [v Hv] Hin [IH1 IH2]].
  - by split; [|constructor].
  - rewrite bind_cons, Hv. simpl. split; [by rewrite IH1|by constructor].
Qed.

(** C8, as the code has it.  On a training frame without columns the loop
    runs no round: it returns the empty record, raises nothing and leaves
    the world as it is. *)
Theorem elimination_loop_without_features (y_train : Series) (w : World) :
  elimination_loop [] y_train w = Ok (∅, w).
Proof.
  unfold elimination_loop. erewrite bind_Ok; [|by rewrite while_rounds_step].
  done.
Qed.

End Claims.

(** * The claims on concrete tables *)

Lemma toy_contract : LibraryContract Toy.library.
Proof.
  split.
  - intros g X y ts. simpl. unfold Toy.split, columns. simpl.
    rewrite <- list_fmap_compose. apply list_fmap_ext. by intros ? [??].
  - intros g X y n d. simpl. by rewrite length_map.
Qed.

Example toy_preprocess :
  preprocess_dataset (L := Toy.library) Toy.dataset
  = Ok (Toy.labels, Toy.preprocessed).
Proof. vm_compute. reflexivity. Qed.

Example toy_preprocessed_columns :
  columns Toy.preprocessed = ["age"; "bmi"]%string.
Proof. reflexivity. Qed.

(** The drop record of a run on [Toy.X0]. *)
Example toy_elimination_loop :
  (λ r, map_to_list r.1) <$>
    (match elimination_loop (L := Toy.library) Toy.X0 Toy.y0 Toy.world0 with
     | Ok a => Some a
     | Raise _ => None
     end)
  = Some [("sex", [2]); ("age", [0]); ("bmi", [1])]%string.
Proof. vm_compute. reflexivity. Qed.

Example median_of_even : median_of [3; -1; 2; 5]%Q = Num (5 # 2).
Proof. reflexivity. Qed.

Example median_of_odd : median_of [1; 0; 0; 1; -2]%Q = Num 0.
Proof. reflexivity. Qed.

Example median_of_none : median_of [] = NA.
Proof. reflexivity. Qed.

(** On a tie the first index wins. *)
Example np_argmin_tie : np_argmin [2; 1; 3; 1]%Q = Ok 1.
Proof. reflexivity. Qed.

(** The frame that [load_dataset] computes and drops differs from the one
    it returns. *)
Example load_dataset_keeps_NA_string :
  load_dataset "responder.csv" Toy.world_NA
  = Ok ([("age"%string, [Num 3; Str "NA"])], Toy.world_NA)
  ∧ df_replace (Str "NA") NA [("age"%string, [Num 3; Str "NA"])]
    = [("age"%string, [Num 3; NA])].
Proof. split; reflexivity. Qed.

Lemma impute_dataset_fills_with_column_median_witness :
  ∃ imputed : DataFrame,
    impute_dataset Toy.gaps = Ok imputed
    ∧ columns imputed = columns Toy.gaps
    ∧ ∀ (j : nat) (name : string) (col : Series),
        Toy.gaps !! j = Some (name, col) →
        ∃ col' : Series,
          imputed !! j = Some (name, col')
          ∧ length col' = length col
          ∧ (∀ i : nat, col !! i = Some NA →
               col' !! i = Some (median_of (non_missing col)))
          ∧ (∀ (i : nat) (c : cell), col !! i = Some c → c ≠ NA →
               col' !! i = Some c)
          ∧ (NA ∉ col → col' = col).
Proof.
  apply impute_dataset_fills_with_column_median;
    [compute_done | reflexivity].
Defined.

Lemma elimination_round_drops_first_least_important_witness :
  ∃ (X_active : DataFrame) (training_loss validation_loss : pynum)
    (feature_importances : ImportanceFrame) (w1 : World)
    (i : nat) (least : string) (v : Q) (old : list nat)
    (st' : LoopState) (w' : World),
    select_columns Toy.X0 (feature_names Toy.st0) = Ok X_active
    ∧ multisplit_avg_random_forest_fit_predict (L := Toy.library)
        X_active Toy.y0 20 1 5 5 Toy.world0
      = Ok ((training_loss, validation_loss, feature_importances), w1)
    ∧ index feature_importances = feature_names Toy.st0
    ∧ feature_names Toy.st0 !! i = Some least
    ∧ feature_importance feature_importances !! i = Some v
    ∧ (∀ j v', feature_importance feature_importances !! j = Some v' →
         (v <= v')%Q)
    ∧ (∀ j v', j < i →
         feature_importance feature_importances !! j = Some v' → (v < v')%Q)
    ∧ elimination_round Toy.X0 Toy.y0 Toy.st0 Toy.world0 = Ok (st', w')
    ∧ feature_names st' = delete i (feature_names Toy.st0)
    ∧ feature_drop_iterations Toy.st0 !! least = Some old
    ∧ feature_drop_iterations st'
      = <[least := old ++ [length (feature_names st')]]>
          (feature_drop_iterations Toy.st0).
Proof.
  apply (elimination_round_drops_first_least_important (C := toy_contract)).
  - discriminate.
  - compute_done.
  - intros f Hf. revert f Hf. apply Forall_forall. compute_done.
  - intros f Hf. revert f Hf. apply Forall_forall.
    repeat constructor; by eexists.
Defined.

Lemma elimination_loop_runs_k_rounds_witness :
  ∃ (d : gmap string (list nat)) (w' : World) (tr : list event)
    (f_last : string) (X_last : DataFrame),
    elimination_loop (L := Toy.library) Toy.X0 Toy.y0 Toy.world0 = Ok (d, w')
    ∧ history w' = history Toy.world0 ++ tr
    ∧ length (round_lines tr) = 3
    ∧ dom d = list_to_set (columns Toy.X0)
    ∧ (∀ f, f ∈ columns Toy.X0 → ∃ v, d !! f = Some [v])
    ∧ last (split_inputs tr) = Some X_last
    ∧ columns X_last = [f_last]
    ∧ last (round_lines tr) = Some (0, f_last)
    ∧ d !! f_last = Some [0].
Proof.
  apply (elimination_loop_runs_k_rounds (C := toy_contract));
    [compute_done | reflexivity | lia].
Defined.

Lemma elimination_loop_records_countdown_witness :
  ∃ (d : gmap string (list nat)) (w' : World),
    elimination_loop (L := Toy.library) Toy.X0 Toy.y0 Toy.world0 = Ok (d, w')
    ∧ sort_descending (recorded d) = reverse (seq 0 3).
Proof.
  apply (elimination_loop_records_countdown (C := toy_contract));
    [compute_done | reflexivity].
Defined.

Lemma drop_feature_experiment_splits_five_times_per_round_witness :
  ∃ (d : gmap string (list nat)) (w' : @World Toy.library) (tr : list event)
    (p0 : Partition) (local : list Partition) (rs : list RoundInfo),
    drop_feature_experiment Toy.world0 = Ok (d, w')
    ∧ history w' = history Toy.world0 ++ tr
    ∧ (sk_train_test_split (random_state Toy.world0) Toy.preprocessed
                           Toy.labels (1 # 5)).1 = p0
    ∧ tr = EvSplit Toy.preprocessed Toy.labels p0 :: rs ≫= round_trace p0.1.2
    ∧ replays (random_state Toy.world0) tr (random_state w')
    ∧ rounds_spec p0.1.1.1 (columns Toy.preprocessed) rs
    ∧ length rs = length (columns Toy.preprocessed)
    ∧ Forall (λ r, length (r_parts r) = 5
                   ∧ ∃ active : list string,
                       active `sublist_of` columns Toy.preprocessed
                       ∧ select_columns p0.1.1.1 active = Ok (r_active r)) rs
    ∧ local = rs ≫= r_parts
    ∧ head (split_inputs tr) = Some Toy.preprocessed
    ∧ split_outputs tr = p0 :: local
    ∧ length local = 5 * length (columns Toy.preprocessed)
    ∧ fit_inputs tr = local ≫= replicate 5.
Proof.
  apply (drop_feature_experiment_splits_five_times_per_round
           (C := toy_contract) Toy.dataset Toy.preprocessed Toy.labels);
    [reflexivity | vm_compute; reflexivity | compute_done].
Defined.

Lemma avg_drop_feature_experiment_collects_runs_witness :
  ∃ (feature_drop_counts : gmap string (list nat)) (w' : @World Toy.library)
    (runs : list (gmap string (list nat))) (ws : list (@World Toy.library)),
    avg_drop_feature_experiment 2 Toy.world0 = Ok (feature_drop_counts, w')
    ∧ experiment_chain (Z.to_nat 2) 0 2 Toy.world0 = (runs, w')
    ∧ length runs = Z.to_nat 2
    ∧ Forall2 (λ w0 r, ∃ w1, drop_feature_experiment w0 = Ok (r, w1)) ws runs
    ∧ dom feature_drop_counts = list_to_set (columns Toy.preprocessed)
    ∧ ∀ f, f ∈ columns Toy.preprocessed →
        ∃ vs : list nat,
          feature_drop_counts !! f = Some vs
          ∧ length vs = Z.to_nat 2
          ∧ Forall2 (λ r v, r !! f = Some [v]) runs vs.
Proof.
  apply (avg_drop_feature_experiment_collects_runs
           (C := toy_contract) Toy.dataset Toy.preprocessed Toy.labels);
    [reflexivity | vm_compute; reflexivity | compute_done | lia].
Defined.

(** The two values a feature has after two runs, in run order. *)
Example toy_avg_drop_feature_experiment :
  (λ r, map_to_list r.1) <$>
    (match avg_drop_feature_experiment (L := Toy.library) 2 Toy.world0 with
     | Ok a => Some a
     | Raise _ => None
     end)
  = Some [("age", [0; 0]); ("bmi", [1; 1])]%string.
Proof. vm_compute. reflexivity. Qed.

(** Two runs that differ: the first drops "age" with one feature left to
    go and "bmi" last, the second the other way round, and a feature's list
    has the number of the first run before the number of the second. *)
Example toy_avg_drop_feature_experiment_run_order :
  (experiment_chain (L := Toy.library_turn) 2 0 2 Toy.world_turn).1
  = [ {[ "age" := [1]; "bmi" := [0] ]}; {[ "age" := [0]; "bmi" := [1] ]} ]%string
  ∧ (λ r, map_to_list r.1) <$>
      (match avg_drop_feature_experiment (L := Toy.library_turn) 2
               Toy.world_turn with
       | Ok a => Some a
       | Raise _ => None
       end)
    = Some [("age", [1; 0]); ("bmi", [0; 1])]%string.
Proof. split; vm_compute; reflexivity. Qed.

(** C1 fails on the code: in the run of [drop_feature_experiment] on the
    toy table the loop splits ten times, not once, and the fits are not all
    on one partition. *)
Lemma drop_feature_experiment_does_not_resplit_once :
  ∃ (d : gmap string (list nat)) (w' : World),
    drop_feature_experiment (L := Toy.library) Toy.world0 = Ok (d, w')
    ∧ length (drop 1 (split_outputs (history w'))) = 10
    ∧ ¬ (∃ p : Partition, ∀ q, q ∈ fit_inputs (history w') → q = p)
    ∧ ¬ resplit_once (history w').
Proof.
  eexists _, _. split; [vm_compute; reflexivity|]. split; [reflexivity|].
  split.
  - intros (p & Hall).
    match type of Hall with
    | ∀ q, q ∈ ?l → _ =>
        assert (∃ q1 q2, l !! 0 = Some q1 ∧ l !! 5 = Some q2 ∧ q1 ≠ q2)
          as (q1 & q2 & H1 & H2 & Hne)
    end.
    { eexists _, _. split; [vm_compute; reflexivity|].
      split; [vm_compute; reflexivity|]. discriminate. }
    apply Hne. transitivity p; [|symmetry]; apply Hall;
      by eapply list_elem_of_lookup_2.
  - intros (p & Hsplits & _). vm_compute in Hsplits. discriminate Hsplits.
Qed.

(** A file with the redundant columns only leaves no feature: the run
    splits the empty table once, runs no round and returns the empty
    record. *)
Example drop_feature_experiment_without_features :
  (λ r, (map_to_list r.1, length (history r.2))) <$>
    (match drop_feature_experiment Toy.world_bare with
     | Ok a => Some a
     | Raise _ => None
     end)
  = Some ([], 1).
Proof. vm_compute. reflexivity. Qed.

(** C8 fails on the code: the loop on a frame without columns raises
    nothing. *)
Lemma elimination_loop_without_features_does_not_raise :
  ¬ ∃ e : exn,
      elimination_loop (L := Toy.library) [] Toy.y0 Toy.world0 = Raise e.
Proof. intros [e He]. vm_compute in He. discriminate He. Qed.

(** * Further properties *)

(** ** k-mers *)

Lemma py_range_seq (n : Z) : py_range n = Z.of_nat <$> seq 0 (Z.to_nat n).
Proof.
  unfold py_range, seqZ. apply list_fmap_ext. intros i x _. lia.
Qed.

Lemma py_slice_window {A : Type} (s : list A) (i k : nat) :
  py_slice s (Z.of_nat i) (Z.of_nat i + Z.of_nat k) = take k (drop i s).
Proof.
  unfold py_slice, slice_index.
  rewrite !bool_decide_eq_false_2 by lia.
  rewrite Nat2Z.id. replace (Z.to_nat (Z.of_nat i + Z.of_nat k)) with (i + k)
    by lia.
  destruct (decide (i ≤ length s)) as [Hi|Hi].
  - rewrite (Nat.min_l i) by done.
    rewrite <- (take_ge (drop i s) (length s - i)) at 2
      by (rewrite length_drop; lia).
    rewrite take_take. f_equal. lia.
  - rewrite (Nat.min_r i) by lia. rewrite !drop_ge by lia.
    by rewrite !take_nil.
Qed.

Lemma py_slice_backwards {A : Type} (s : list A) (i : nat) (k : Z) :
  (k < 0)%Z →
  py_slice s (Z.of_nat i) (Z.of_nat i + k)
  = if decide (i < Z.to_nat (- k))
    then take (length s - Z.to_nat (- k)) (drop i s)
    else [].
Proof.
  intros Hk. unfold py_slice, slice_index.
  rewrite (bool_decide_eq_false_2 (Z.of_nat i < 0)%Z) by lia.
  rewrite Nat2Z.id. case_decide as Hi.
  - rewrite bool_decide_eq_true_2 by lia.
    destruct (decide (i ≤ length s)) as [Hle|Hgt].
    + rewrite (Nat.min_l i) by done.
      destruct (decide (Z.to_nat (- k) ≤ length s)) as [Hn|Hn].
      * f_equal. lia.
      * replace (Z.to_nat (Z.of_nat i + k + Z.of_nat (length s)) - i) with 0
          by lia.
        replace (length s - Z.to_nat (- k)) with 0 by lia. done.
    + rewrite (Nat.min_r i) by lia. rewrite !drop_ge by lia.
      by rewrite !take_nil.
  - rewrite bool_decide_eq_false_2 by lia.
    replace (Z.to_nat (Z.of_nat i + k) `min` length s - i `min` length s)
      with 0 by lia.
    done.
Qed.

Lemma build_kmers_nat (sequence : str) (k : nat) :
  build_kmers sequence (Z.of_nat k)
  = (λ i, take k (drop i sequence)) <$> seq 0 (length sequence + 1 - k).
Proof.
  unfold build_kmers. rewrite py_range_seq, <- list_fmap_compose.
  replace (Z.to_nat (Z.of_nat (length sequence) - Z.of_nat k + 1))
    with (length sequence + 1 - k) by lia.
  apply list_fmap_ext. intros i x _. simpl. apply py_slice_window.
Qed.

(** X1. For [0 <= k <= len(sequence)], [build_kmers] returns the
    [len - k + 1] windows of the sequence: the entry at [i] is the [k]
    characters that start at position [i].  (For [k = 0] these are
    [len + 1] empty strings.) *)
Theorem build_kmers_windows (sequence : str) (k : nat) :
  k ≤ length sequence →
  length (build_kmers sequence (Z.of_nat k)) = length sequence - k + 1
  ∧ ∀ i, i ≤ length sequence - k →
      ∃ w, build_kmers sequence (Z.of_nat k) !! i = Some w
           ∧ w = take k (drop i sequence)
           ∧ length w = k.
Proof.
  intros Hk. rewrite build_kmers_nat. split.
  - rewrite length_fmap, length_seq. lia.
  - intros i Hi. eexists. split; [|split; [done|]].
    + rewrite list_lookup_fmap, lookup_seq_lt by lia. done.
    + rewrite length_take, length_drop. lia.
Qed.

(** X2. When [k] is larger than the sequence is long, [build_kmers]
    returns the empty list; nothing is raised. *)
Theorem build_kmers_too_long (sequence : str) (k : Z) :
  (Z.of_nat (length sequence) < k)%Z →
  build_kmers sequence k = [].
Proof.
  intros Hk. unfold build_kmers. rewrite py_range_seq.
  by replace (Z.to_nat (Z.of_nat (length sequence) - k + 1)) with 0 by lia.
Qed.

Lemma omap_last_windows (s : str) (k m : nat) :
  1 ≤ k → k + m ≤ length s →
  omap last ((λ i, take k (drop i s)) <$> seq 1 m) = take m (drop k s).
Proof.
  intros Hk. induction m as [|m IH]; intros Hm; [done|].
  rewrite seq_S, fmap_app, omap_app, IH by lia. simpl.
  destruct (lookup_lt_is_Some_2 s (k + m)) as [c Hc]; [lia|].
  assert (last (take k (drop (S m) s)) = Some c) as ->.
  { rewrite last_lookup, length_take, length_drop.
    rewrite Nat.min_l by lia.
    rewrite lookup_take_lt by lia. rewrite lookup_drop.
    rewrite <- Hc. f_equal. lia. }
  simpl. symmetry. apply take_S_r. by rewrite lookup_drop.
Qed.

(** X3. The sequence can be read back from its k-mers: for
    [1 <= k <= len(sequence)] it is the first k-mer followed by the last
    character of every later k-mer. *)
Theorem build_kmers_reconstruct (sequence : str) (k : nat) :
  1 ≤ k → k ≤ length sequence →
  ∃ w ws,
    build_kmers sequence (Z.of_nat k) = w :: ws
    ∧ length w = k
    ∧ sequence = w ++ omap last ws.
Proof.
  intros Hk1 Hk. rewrite build_kmers_nat.
  replace (length sequence + 1 - k) with (S (length sequence - k)) by lia.
  rewrite <- cons_seq, fmap_cons.
  eexists _, _. split; [done|]. simpl. split.
  - rewrite length_take, length_drop. lia.
  - rewrite omap_last_windows by lia.
    rewrite (take_ge (drop k sequence)) by (rewrite length_drop; lia).
    by rewrite take_drop.
Qed.

(** X4. Neighbouring k-mers overlap in [k - 1] characters: a k-mer without
    its first character is the start of the next one. *)
Theorem build_kmers_overlap (sequence : str) (k i : nat) (u v : str) :
  build_kmers sequence (Z.of_nat k) !! i = Some u →
  build_kmers sequence (Z.of_nat k) !! S i = Some v →
  drop 1 u = take (k - 1) v.
Proof.
  rewrite build_kmers_nat, !list_lookup_fmap.
  intros Hu Hv.
  apply fmap_Some in Hu as (i1 & [-> _]%lookup_seq & ->).
  apply fmap_Some in Hv as (i2 & [-> _]%lookup_seq & ->).
  simpl. apply list_eq. intros j.
  rewrite lookup_drop, !lookup_take, !lookup_drop.
  repeat case_decide; try lia; try done.
  f_equal. lia.
Qed.

(** X5. A negative [k] is not rejected: the list then holds [|k|] windows
    of [len - |k|] characters (the slices end [|k|] characters before the
    end of the sequence) followed by [len + 1] empty strings. *)
Theorem build_kmers_negative (sequence : str) (k : Z) :
  (k < 0)%Z →
  build_kmers sequence k
  = ((λ i, take (length sequence - Z.to_nat (- k)) (drop i sequence))
       <$> seq 0 (Z.to_nat (- k)))
    ++ replicate (length sequence + 1) [].
Proof.
  intros Hk. unfold build_kmers. rewrite py_range_seq, <- list_fmap_compose.
  replace (Z.to_nat (Z.of_nat (length sequence) - k + 1))
    with (Z.to_nat (- k) + (length sequence + 1)) by lia.
  rewrite seq_app, fmap_app. f_equal.
  - apply list_fmap_ext. intros i x [-> Hx]%lookup_seq. simpl.
    rewrite py_slice_backwards by done. by rewrite decide_True by lia.
  - erewrite (const_fmap _ _ []); [by rewrite length_seq|].
    intros i x [-> Hx]%lookup_seq. simpl.
    rewrite py_slice_backwards by done. by rewrite decide_False by lia.
Qed.

(** ** Imputation and the count of missing values *)

Lemma impute_dataset_numeric (dataset : DataFrame) :
  NoDup (columns dataset) →
  numeric dataset = true →
  impute_dataset dataset
  = Ok ((λ c : string * list cell,
           (c.1, map (fill_cell (Some (median_of (non_missing c.2)))) c.2))
          <$> dataset).
Proof.
  intros Hnd Hnum. unfold impute_dataset.
  rewrite (df_median_numeric _ Hnum). simpl. f_equal. unfold fillna.
  apply list_fmap_ext. intros j [name col] Hj. simpl.
  by rewrite (assoc_fmap_lookup (λ c, median_of (non_missing c.2)) j name col).
Qed.

Lemma median_of_NA (vs : list Q) : median_of vs = NA ↔ vs = [].
Proof.
  unfold median_of. split.
  - case_decide as Hlen.
    + rewrite sort_values_length in Hlen. by destruct vs.
    + by destruct (Nat.odd _).
  - by intros ->.
Qed.

Lemma non_missing_nil (col : Series) :
  existsb is_str col = false → non_missing col = [] →
  Forall (λ c, c = NA) col.
Proof.
  induction col as [|c col IH]; [by constructor|].
  unfold non_missing. simpl.
  destruct c; simpl; [done| done |]. intros Hstr Hnil.
  constructor; [done|]. by apply IH.
Qed.

Lemma fill_cell_NA (col : Series) : map (fill_cell (Some NA)) col = col.
Proof. induction col as [|[] col IH]; simpl; by rewrite ?IH. Qed.

Lemma fill_cell_Num_no_NA (q : Q) (col : Series) :
  NA ∉ map (fill_cell (Some (Num q))) col.
Proof.
  induction col as [|c col IH]; simpl; [by apply not_elem_of_nil|].
  apply not_elem_of_cons. split; [by destruct c|done].
Qed.

Lemma isna_sum_no_NA (col : Series) : NA ∉ col → isna_sum col = 0.
Proof.
  unfold isna_sum. induction col as [|c col IH]; [done|].
  intros [Hc Hcol]%not_elem_of_cons.
  rewrite filter_cons_False; [by apply IH|]. by destruct c.
Qed.

Lemma isna_sum_all_NA (col : Series) :
  Forall (λ c, c = NA) col → isna_sum col = length col.
Proof.
  unfold isna_sum. induction 1 as [|c col -> _ IH]; [done|].
  rewrite filter_cons_True by done. simpl. by rewrite IH.
Qed.

Lemma all_missing_spec (col : Series) :
  existsb is_str col = false →
  all_missing col = true ↔ col ≠ [] ∧ non_missing col = [].
Proof.
  intros Hstr. destruct col as [|c col]; [by split; [|intros [??]]|].
  unfold all_missing. rewrite forallb_forall. split.
  - intros Hall. split; [done|].
    revert Hall. generalize (c :: col). clear. intros l Hall.
    induction l as [|x l IH]; [done|]. unfold non_missing. simpl.
    assert (is_na x = true) as Hx by (apply Hall; by left).
    destruct x; try done. apply IH. intros y Hy. apply Hall. by right.
  - intros [_ Hnil] x Hx. apply non_missing_nil in Hnil; [|done].
    rewrite Forall_forall in Hnil. rewrite (Hnil x); [done|].
    by apply list_elem_of_In.
Qed.

Lemma omap_fmap_pointwise {A B C : Type} (f : B → option C) (g : A → B)
    (h : A → option C) (l : list A) :
  Forall (λ x, f (g x) = h x) l → omap f (g <$> l) = omap h l.
Proof.
  induction 1 as [|x l Hx _ IH]; [done|].
  rewrite fmap_cons. cbn [omap list_omap]. by rewrite Hx, IH.
Qed.

Lemma numeric_Forall (dataset : DataFrame) :
  numeric dataset = true →
  Forall (λ c : string * list cell, existsb is_str c.2 = false) dataset.
Proof.
  unfold numeric. rewrite forallb_forall, Forall_forall.
  intros H c Hc. apply negb_true_iff, H. by apply list_elem_of_In.
Qed.

(** X6. After [impute_dataset] on a numeric table with distinct column
    labels, [count_nans] prints its heading and then only the columns that
    had no value at all, each with its number of rows: every other column
    has no missing cell left. *)
Theorem count_nans_after_impute_dataset (dataset : DataFrame) :
  NoDup (columns dataset) →
  numeric dataset = true →
  ∃ imputed : DataFrame,
    impute_dataset dataset = Ok imputed
    ∧ count_nans imputed
      = NanHeading
        :: omap (λ c : string * list cell,
                   if all_missing c.2 then Some (NanCount c.1 (length c.2))
                   else None) dataset.
Proof.
  intros Hnd Hnum. rewrite (impute_dataset_numeric _ Hnd Hnum).
  eexists. split; [done|]. unfold count_nans. f_equal.
  rewrite <- list_fmap_compose. apply omap_fmap_pointwise.
  eapply Forall_impl; [by apply numeric_Forall|].
  intros [name col] Hcol. simpl in *.
  pose proof (all_missing_spec col Hcol) as Hspec.
  destruct (median_of (non_missing col)) as [q| |] eqn:Hm.
  - rewrite isna_sum_no_NA by apply fill_cell_Num_no_NA. simpl.
    destruct (all_missing col); [|done].
    destruct Hspec as [[_ Hnil] _]; [done|].
    apply median_of_NA in Hnil. congruence.
  - unfold median_of in Hm. case_decide; [done|].
    by destruct (Nat.odd _).
  - apply median_of_NA in Hm. rewrite fill_cell_NA.
    rewrite isna_sum_all_NA by (by apply non_missing_nil).
    destruct col as [|c col]; [done|].
    rewrite (proj2 Hspec) by done. simpl. done.
Qed.

Lemma fill_cell_no_str (m : cell) (col : Series) :
  is_str m = false → existsb is_str col = false →
  existsb is_str (map (fill_cell (Some m)) col) = false.
Proof.
  intros Hm. induction col as [|c col IH]; [done|]. simpl.
  intros [Hc Hcol]%orb_false_elim. rewrite IH by done.
  rewrite orb_false_r. by destruct c.
Qed.

Lemma numeric_fill (dataset : DataFrame) :
  numeric dataset = true →
  numeric ((λ c : string * list cell,
              (c.1, map (fill_cell (Some (median_of (non_missing c.2)))) c.2))
             <$> dataset) = true.
Proof.
  intros Hnum%numeric_Forall. unfold numeric. apply forallb_forall.
  intros c' ([name col] & -> & Hc)%list_elem_of_In%list_elem_of_fmap. simpl.
  rewrite Forall_forall in Hnum. specialize (Hnum _ Hc). simpl in Hnum.
  apply negb_true_iff, fill_cell_no_str; [|done].
  unfold median_of. case_decide; [done|]. by destruct (Nat.odd _).
Qed.

(** X7. [impute_dataset] is idempotent on numeric tables with distinct
    column labels: imputing an imputed table changes nothing. *)
Theorem impute_dataset_idempotent (dataset : DataFrame) :
  NoDup (columns dataset) →
  numeric dataset = true →
  ∃ imputed : DataFrame,
    impute_dataset dataset = Ok imputed
    ∧ impute_dataset imputed = Ok imputed.
Proof.
  intros Hnd Hnum. rewrite (impute_dataset_numeric _ Hnd Hnum).
  eexists. split; [done|].
  rewrite impute_dataset_numeric; [| |by apply numeric_fill].
  - f_equal. rewrite <- list_fmap_compose.
    apply list_fmap_ext. intros j [name col] Hj. simpl. f_equal.
    destruct (median_of (non_missing col)) as [q| |] eqn:Hm.
    + apply fill_cell_no_NA, fill_cell_Num_no_NA.
    + unfold median_of in Hm. case_decide; [done|]. by destruct (Nat.odd _).
    + rewrite !fill_cell_NA. rewrite Hm. apply fill_cell_NA.
  - unfold columns in *. rewrite <- list_fmap_compose.
    by erewrite list_fmap_ext; [exact Hnd|intros ? [??] ?].
Qed.

(** ** Removal of the redundant columns *)

Lemma df_drop_ok (labels : list string) (df : DataFrame) :
  (∀ f, f ∈ labels → f ∈ columns df) →
  df_drop labels df = Ok (filter (λ c, c.1 ∉ labels) df).
Proof.
  intros Hin. unfold df_drop.
  assert (forallb (λ l, bool_decide (l ∈ columns df)) labels = true) as ->;
    [|done].
  apply forallb_forall. intros f Hf%list_elem_of_In.
  apply bool_decide_eq_true_2. by apply Hin.
Qed.

Lemma df_drop_missing (labels : list string) (df : DataFrame) (f : string) :
  f ∈ labels → f ∉ columns df → df_drop labels df = Raise KeyError.
Proof.
  intros Hf Hnot. unfold df_drop.
  destruct (forallb _ labels) eqn:Hall; [|done].
  rewrite forallb_forall in Hall.
  specialize (Hall f (proj1 (list_elem_of_In _ _) Hf)).
  by apply bool_decide_eq_true_1 in Hall.
Qed.

Lemma assoc_None {A : Type} (k : string) (l : list (string * A)) :
  k ∉ columns l → assoc k l = None.
Proof.
  unfold columns. induction l as [|[k' v] l IH]; simpl; [done|].
  intros [??]%not_elem_of_cons. by rewrite decide_False, IH.
Qed.

Lemma label_is_redundant :
  "ldl_cholesterin_reduction"%string ∈ redundant_features.
Proof. compute_done. Qed.

(** X8. When the table has all ten columns of [redundant_features],
    [remove_redundant_features] returns the label column and the table
    without those ten columns: the remaining columns are the other columns
    of the table, unchanged and in their order, and the label is not among
    them. *)
Theorem remove_redundant_features_keeps_the_rest (dataset : DataFrame) :
  (∀ f, f ∈ redundant_features → f ∈ columns dataset) →
  ∃ (labels : Series) (rest : DataFrame),
    remove_redundant_features dataset = Ok (labels, rest)
    ∧ assoc "ldl_cholesterin_reduction"%string dataset = Some labels
    ∧ rest `sublist_of` dataset
    ∧ (∀ c, c ∈ rest ↔ c ∈ dataset ∧ c.1 ∉ redundant_features)
    ∧ "ldl_cholesterin_reduction"%string ∉ columns rest.
Proof.
  intros Hin. unfold remove_redundant_features.
  destruct (assoc_is_Some "ldl_cholesterin_reduction"%string dataset)
    as [labels Hlabels].
  { apply Hin, label_is_redundant. }
  rewrite Hlabels, df_drop_ok by done. simpl.
  eexists _, _. split; [done|]. split; [done|]. split; [apply sublist_filter|].
  split; [intros c; rewrite list_elem_of_filter; tauto|].
  unfold columns.
  intros ([name col] & Heq & [Hc _]%list_elem_of_filter)%list_elem_of_fmap.
  apply Hc. rewrite <- Heq. apply label_is_redundant.
Qed.

(** X9. When one of the ten columns is missing, [remove_redundant_features]
    raises: AttributeError when the label column is the missing one (the
    attribute access comes first), KeyError from [drop] otherwise. *)
Theorem remove_redundant_features_missing_column
    (dataset : DataFrame) (f : string) :
  f ∈ redundant_features →
  f ∉ columns dataset →
  remove_redundant_features dataset
  = if decide ("ldl_cholesterin_reduction"%string ∈ columns dataset)
    then Raise KeyError
    else Raise AttributeError.
Proof.
  intros Hf Hnot. unfold remove_redundant_features. case_decide as Hlabel.
  - destruct (assoc_is_Some _ _ Hlabel) as [labels ->]. simpl.
    by rewrite (df_drop_missing _ _ f).
  - by rewrite assoc_None.
Qed.

(** ** The averaging functions *)

Section MoreLoops.
Context {L : Library}.

Lemma py_add_float (a : pynum) (q : Q) :
  py_add a (PyFloat q) = PyFloat (to_Q a + q).
Proof. by destruct a. Qed.

Lemma py_truediv_nonzero (a : pynum) (n : Z) :
  n ≠ 0%Z → py_truediv a (PyInt n) = Ok (PyFloat (to_Q a / inject_Z n)).
Proof.
  intros Hn. unfold py_truediv. simpl.
  by rewrite bool_decide_eq_false_2.
Qed.

Lemma experiment_lines_blocks X y ne md n (ps : list Partition) :
  experiment_lines (ps ≫= split_block X y ne md n) = [].
Proof.
  unfold experiment_lines. induction ps as [|p ps IH]; [done|].
  rewrite bind_cons, omap_app, IH, app_nil_r. unfold split_block. simpl.
  by rewrite omap_replicate_None.
Qed.

Lemma experiment_lines_rounds y (rs : list RoundInfo) :
  experiment_lines (rs ≫= round_trace y) = [].
Proof.
  induction rs as [|r rs IH]; [done|].
  rewrite bind_cons. unfold experiment_lines in *. rewrite omap_app, IH.
  unfold round_trace. rewrite omap_app. simpl. rewrite !app_nil_r.
  apply experiment_lines_blocks.
Qed.

Lemma rounds_spec_active_lengths (X : DataFrame) names rs :
  rounds_spec X names rs →
  (λ r, length (r_active r)) <$> rs = reverse (seq 1 (length names)).
Proof.
  induction 1 as [|names r rs i Hsel Hps Hi Hrs IH]; [done|].
  rewrite fmap_cons, IH, length_delete by eauto.
  rewrite (select_columns_length _ _ _ Hsel).
  apply lookup_lt_Some in Hi.
  destruct (length names) as [|m]; [lia|].
  replace (S m - 1) with m by lia.
  by rewrite seq_S, reverse_snoc.
Qed.

Context {C : LibraryContract L}.

Lemma fit_chain_length (n : nat) X_train X_test y_train y_test
    n_estimators max_depth (w : World) :
  length (fit_chain n X_train X_test y_train y_test n_estimators max_depth w).1
  = n.
Proof.
  revert w. induction n as [|n IH]; intros w; [done|]. simpl.
  destruct (random_forest_fit_predict_spec X_train X_test y_train y_test
              n_estimators max_depth w)
    as (tl & vl & fi & w1 & -> & _).
  specialize (IH w1). destruct (fit_chain n _ _ _ _ _ _ w1) as [rs w2].
  simpl in *. by rewrite IH.
Qed.

Lemma avg_loop_is_fold (body : pynum * pynum * list Q → M (pynum * pynum * list Q))
    X_train X_test y_train y_test n_estimators max_depth (n : nat) :
  (∀ ta va fa,
     body (ta, va, fa)
     = ('(tl, vl, fi) ←
          random_forest_fit_predict X_train X_test y_train y_test
                                    n_estimators max_depth;
        fa' ← liftR (np_iadd fa (feature_importance fi));
        mret (py_add ta tl, py_add va vl, fa'))) →
  ∀ (ta va : pynum) (fa : list Q) (w : World),
    length fa = length X_train →
    ∃ ta' va' fa',
      for_range n body (ta, va, fa) w
      = Ok ((ta', va', fa'),
            (fit_chain n X_train X_test y_train y_test
                       n_estimators max_depth w).2)
      ∧ to_Q ta'
        = foldl Qplus (to_Q ta)
            ((λ r, to_Q r.1.1)
               <$> (fit_chain n X_train X_test y_train y_test
                              n_estimators max_depth w).1)
      ∧ to_Q va'
        = foldl Qplus (to_Q va)
            ((λ r, to_Q r.1.2)
               <$> (fit_chain n X_train X_test y_train y_test
                              n_estimators max_depth w).1)
      ∧ fa'
        = foldl (zip_with Qplus) fa
            ((λ r, feature_importance r.2)
               <$> (fit_chain n X_train X_test y_train y_test
                              n_estimators max_depth w).1)
      ∧ length fa' = length X_train.
Proof.
  intros Hbody. induction n as [|n IH]; intros ta va fa w Hlen.
  - by exists ta, va, fa.
  - simpl.
    destruct (random_forest_fit_predict_spec X_train X_test y_train y_test
                n_estimators max_depth w)
      as (tl & vl & fi & w1 & Hfit & _ & Hfi & _).
    rewrite Hfit.
    destruct (np_iadd_same_length fa (feature_importance fi))
      as (c & Hadd & Hc); [congruence|].
    assert (c = zip_with Qplus fa (feature_importance fi)) as ->.
    { unfold np_iadd in Hadd. rewrite decide_True in Hadd by congruence.
      by inversion Hadd. }
    destruct (IH (py_add ta (PyFloat tl)) (py_add va (PyFloat vl))
                 (zip_with Qplus fa (feature_importance fi)) w1)
      as (ta' & va' & fa' & Hfor & Hta & Hva & Hfa & Hlen'); [congruence|].
    exists ta', va', fa'.
    destruct (fit_chain n _ _ _ _ _ _ w1) as [rs w2] eqn:Hchain.
    simpl in *. split.
    { erewrite bind_Ok; [exact Hfor|].
      rewrite Hbody. erewrite bind_Ok by exact Hfit. simpl.
      erewrite bind_liftR_Ok by exact Hadd. done. }
    rewrite !py_add_float in Hta, Hva. simpl in *. done.
Qed.

(** X10. For [n_iterations >= 1], [avg_random_forest_fit_predict] is a
    fold over the outputs of [n_iterations] successive calls of
    [random_forest_fit_predict]: each loss it returns is the sum of the
    single losses divided by [n_iterations], the importances are the
    element-wise sums divided by [n_iterations], and the world is the one
    after the last fit. *)
Theorem avg_random_forest_fit_predict_is_mean
    (X_train X_test : DataFrame) (y_train y_test : Series)
    (n_estimators max_depth n_iterations : Z) (w : World) :
  (1 ≤ n_iterations)%Z →
  ∃ (fits : list (pynum * pynum * ImportanceFrame)) (w' : World),
    fit_chain (Z.to_nat n_iterations) X_train X_test y_train y_test
              n_estimators max_depth w = (fits, w')
    ∧ length fits = Z.to_nat n_iterations
    ∧ avg_random_forest_fit_predict X_train X_test y_train y_test
        n_estimators max_depth n_iterations w
      = Ok ((PyFloat (Qsum ((λ r, to_Q r.1.1) <$> fits)
                      / inject_Z n_iterations),
             PyFloat (Qsum ((λ r, to_Q r.1.2) <$> fits)
                      / inject_Z n_iterations),
             {| index := columns X_train;
                feature_importance :=
                  map (λ x, x / inject_Z n_iterations)%Q
                      (vector_sum (length X_train)
                         ((λ r, feature_importance r.2) <$> fits)) |}),
            w').
Proof.
  intros Hn.
  destruct (fit_chain (Z.to_nat n_iterations) X_train X_test y_train y_test
              n_estimators max_depth w) as [fits w'] eqn:Hchain.
  exists fits, w'. split; [done|]. split.
  { pose proof (fit_chain_length (Z.to_nat n_iterations) X_train X_test
                  y_train y_test n_estimators max_depth w) as Hlen.
    by rewrite Hchain in Hlen. }
  unfold avg_random_forest_fit_predict.
  match goal with
  | |- context [for_range ?n ?body ?s0] =>
      destruct (avg_loop_is_fold body X_train X_test y_train y_test
                  n_estimators max_depth n) with
        (ta := PyInt 0) (va := PyInt 0) (fa := np_zeros (length X_train))
        (w := w)
        as (ta' & va' & fa' & Hfor & Hta & Hva & Hfa & Hlen)
  end.
  { by intros ta va fa. }
  { unfold np_zeros. by rewrite length_replicate. }
  rewrite Hchain in Hfor, Hta, Hva, Hfa. simpl in *.
  erewrite bind_Ok by exact Hfor. simpl.
  erewrite bind_liftR_Ok by (apply py_truediv_nonzero; lia).
  erewrite bind_liftR_Ok by (apply py_truediv_nonzero; lia).
  unfold importance_frame.
  rewrite decide_True
    by (by unfold np_truediv, columns; rewrite length_map, length_fmap).
  unfold mbind, M_bind, liftR, mret, M_ret. simpl.
  rewrite Hta, Hva, Hfa. done.
Qed.

(** X11. A negative [n_iterations] is not rejected: the call fits nothing,
    leaves the world as it is and returns zero losses and zero
    importances. *)
Theorem avg_random_forest_fit_predict_negative_iterations
    (X_train X_test : DataFrame) (y_train y_test : Series)
    (n_estimators max_depth n_iterations : Z) (w : World) :
  (n_iterations < 0)%Z →
  ∃ (a b : Q) (fi : ImportanceFrame),
    avg_random_forest_fit_predict X_train X_test y_train y_test
      n_estimators max_depth n_iterations w = Ok ((PyFloat a, PyFloat b, fi), w)
    ∧ (a == 0)%Q ∧ (b == 0)%Q
    ∧ index fi = columns X_train
    ∧ length (feature_importance fi) = length X_train
    ∧ Forall (λ x, x == 0)%Q (feature_importance fi).
Proof.
  intros Hn. unfold avg_random_forest_fit_predict.
  replace (Z.to_nat n_iterations) with 0 by lia. simpl.
  unfold mbind, M_bind, mret, M_ret.
  rewrite !py_truediv_nonzero by lia. simpl.
  unfold importance_frame.
  rewrite decide_True
    by (by unfold np_truediv, np_zeros, columns;
        rewrite length_map, length_replicate, length_fmap).
  simpl. eexists _, _, _. split; [done|]. simpl.
  assert (∀ q : Q, (0 / q == 0)%Q) as Hz.
  { intros q. unfold Qdiv. apply Qmult_0_l. }
  split; [apply Hz|]. split; [apply Hz|]. split; [done|].
  unfold np_truediv, np_zeros. split.
  - by rewrite length_map, length_replicate.
  - apply Forall_forall. intros x Hx%list_elem_of_In.
    apply in_map_iff in Hx as (z & <- & Hz'%list_elem_of_In%elem_of_replicate).
    destruct Hz' as [-> _]. apply Hz.
Qed.

(** X12. [multisplit_avg_random_forest_fit_predict] raises
    ZeroDivisionError when [n_dataset_iterations] is 0 (its own division),
    and also when [n_dataset_iterations >= 1] and [n_forest_iterations] is
    0 (the division of the first inner call). *)
Theorem multisplit_avg_random_forest_fit_predict_zero_iterations
    (X_train : DataFrame) (y_train : Series)
    (n_estimators max_depth n_forest_iterations n_dataset_iterations : Z)
    (w : World) :
  (n_dataset_iterations = 0
   ∨ 0 < n_dataset_iterations ∧ n_forest_iterations = 0)%Z →
  multisplit_avg_random_forest_fit_predict X_train y_train
    n_estimators max_depth n_forest_iterations n_dataset_iterations w
  = Raise ZeroDivisionError.
Proof.
  intros [->|[Hnd ->]]; [done|].
  unfold multisplit_avg_random_forest_fit_predict.
  destruct (Z.to_nat n_dataset_iterations) as [|m] eqn:Hm; [lia|].
  apply bind_Raise. simpl. apply bind_Raise.
  unfold mbind at 1, M_bind at 1, train_test_split at 1.
  destruct (sk_train_test_split _ _ _ _) as [[[[Xl Xv] yl] yv] g].
  done.
Qed.


(** ** The cost of the experiments *)

(** X14. One run of [drop_feature_experiment] over [k] features fits
    [25 * k] forests, and its rounds work on fewer and fewer columns: after
    the split of the whole table, the frames split have [k], [k-1], ..., 1
    columns, five splits each. *)
Theorem drop_feature_experiment_cost
    (ds pre : DataFrame) (labels : Series) (w : World) :
  read_csv "responder.csv" = Ok ds →
  preprocess_dataset ds = Ok (labels, pre) →
  NoDup (columns pre) →
  ∃ (d : gmap string (list nat)) (w' : World) (tr : list event),
    drop_feature_experiment w = Ok (d, w')
    ∧ history w' = history w ++ tr
    ∧ length (fit_inputs tr) = 25 * length (columns pre)
    ∧ length <$> drop 1 (split_inputs tr)
      = reverse (seq 1 (length (columns pre))) ≫= replicate 5.
Proof.
  intros Hcsv Hpre Hnd.
  destruct (drop_feature_experiment_spec ds pre labels w Hcsv Hpre Hnd)
    as (p & rs & w' & _ & Hrs & Hrun & Hh).
  exists (drop_record rs), w',
    (EvSplit pre labels p :: rs ≫= round_trace p.1.2).
  split; [done|]. split; [done|]. split.
  - change (fit_inputs (EvSplit pre labels p :: ?t)) with (fit_inputs t).
    rewrite fit_inputs_rounds.
    pose proof (length_bind_parts _ _ _ Hrs) as Hparts.
    revert Hparts. generalize (rs ≫= r_parts). intros ps Hps.
    assert (length (ps ≫= replicate 5) = 5 * length ps) as ->; [|lia].
    clear. induction ps as [|q ps IH]; [done|].
    rewrite bind_cons, length_app, IH, length_replicate. simpl. lia.
  - change (split_inputs (EvSplit pre labels p :: ?t))
      with (pre :: split_inputs t).
    change (drop 1 (pre :: ?l)) with l. rewrite split_inputs_rounds.
    rewrite <- (rounds_spec_active_lengths _ _ _ Hrs).
    pose proof (rounds_spec_parts _ _ _ Hrs) as Hparts.
    clear -Hparts. induction Hparts as [|r rs Hr _ IH]; [done|].
    rewrite fmap_cons, !bind_cons, fmap_app, IH, Hr.
    by rewrite fmap_replicate.
Qed.

End MoreLoops.

(** ** The repeated experiment *)

Section MoreRuns.
Context {L : Library} {C : LibraryContract L}.

(** X15. With [n_runs = N >= 0], [avg_drop_feature_experiment] prints the
    lines "Experiment 1/N" to "Experiment N/N" in this order, and over [k]
    features it splits [N * (1 + 5 * k)] times and fits [N * 25 * k]
    forests. *)
Theorem avg_drop_feature_experiment_trace
    (ds pre : DataFrame) (labels : Series) (n_runs : Z) (w : World) :
  read_csv "responder.csv" = Ok ds →
  preprocess_dataset ds = Ok (labels, pre) →
  NoDup (columns pre) →
  (0 ≤ n_runs)%Z →
  ∃ (feature_drop_counts : gmap string (list nat)) (w' : World)
    (tr : list event),
    avg_drop_feature_experiment n_runs w = Ok (feature_drop_counts, w')
    ∧ history w' = history w ++ tr
    ∧ experiment_lines tr
      = (λ i, (Z.of_nat i, n_runs)) <$> seq 1 (Z.to_nat n_runs)
    ∧ length (split_outputs tr)
      = Z.to_nat n_runs * (1 + 5 * length (columns pre))
    ∧ length (fit_inputs tr) = Z.to_nat n_runs * (25 * length (columns pre)).
Proof.
  intros Hcsv Hpre Hnd Hn. unfold avg_drop_feature_experiment.
  match goal with
  | |- context [for_range ?n ?body ?s0] =>
      destruct (for_range_inv
        (λ j (acc : Z * gmap string (list nat)) (wj : World),
           acc.1 = Z.of_nat j
           ∧ ∃ tr : list event,
               history wj = history w ++ tr
               ∧ experiment_lines tr = (λ i, (Z.of_nat i, n_runs)) <$> seq 1 j
               ∧ length (split_outputs tr)
                 = j * (1 + 5 * length (columns pre))
               ∧ length (fit_inputs tr) = j * (25 * length (columns pre)))
        n body s0 w)
        as ([i counts] & w' & Hfor & _ & tr & Hh & Hlines & Hsplits & Hfits)
  end.
  { split; [done|]. exists []. by rewrite app_nil_r. }
  { intros j [i counts] w1 _ (Hi & tr & Hh & Hlines & Hsplits & Hfits).
    simpl in Hi. subst i.
    unfold mbind at 1, M_bind at 1, print at 1, log at 1.
    set (w2 := {| random_state := random_state w1 |}).
    destruct (drop_feature_experiment_spec ds pre labels w2 Hcsv Hpre Hnd)
      as (p & rs & w3 & _ & Hrs & Hrun & Hh3).
    erewrite bind_Ok by exact Hrun.
    eexists _, _. split; [done|]. split; [simpl; lia|].
    exists (tr ++ EvPrint (ExperimentLine (Z.of_nat j + 1) n_runs)
               :: EvSplit pre labels p :: rs ≫= round_trace p.1.2).
    split.
    { rewrite Hh3. subst w2. simpl. rewrite Hh, <- !app_assoc. done. }
    unfold experiment_lines, split_outputs, fit_inputs in *.
    rewrite !omap_app. cbn [omap list_omap].
    pose proof (experiment_lines_rounds p.1.2 rs) as He.
    pose proof (split_outputs_rounds p.1.2 rs) as Hs.
    pose proof (fit_inputs_rounds p.1.2 rs) as Hf.
    unfold experiment_lines, split_outputs, fit_inputs in He, Hs, Hf.
    rewrite He, Hs, Hf, Hlines.
    split; [|split].
    - rewrite seq_S, fmap_app. simpl. do 3 f_equal. lia.
    - rewrite length_app, Hsplits. simpl.
      rewrite (length_bind_parts _ _ _ Hrs). lia.
    - rewrite length_app, Hfits.
      pose proof (length_bind_parts _ _ _ Hrs) as Hparts.
      revert Hparts. generalize (rs ≫= r_parts). intros ps Hps.
      assert (length (ps ≫= replicate 5) = 5 * length ps) as ->; [|lia].
      clear. induction ps as [|q ps IH]; [done|].
      rewrite bind_cons, length_app, IH, length_replicate. simpl. lia. }
  erewrite bind_Ok by exact Hfor.
  by exists counts, w', tr.
Qed.

(** X16. With [n_runs <= 0], [avg_drop_feature_experiment] runs nothing
    and returns the empty record from an unchanged world, and on the empty
    record the ranking cell raises ValueError. *)
Theorem avg_drop_feature_experiment_no_runs (n_runs : Z) (w : World) :
  (n_runs ≤ 0)%Z →
  avg_drop_feature_experiment n_runs w = Ok (∅, w)
  ∧ ranking (map_to_list (∅ : gmap string (list nat))) = Raise ValueError.
Proof.
  intros Hn. unfold avg_drop_feature_experiment.
  replace (Z.to_nat n_runs) with 0 by lia.
  split; [done|]. by rewrite map_to_list_empty.
Qed.

End MoreRuns.

(** ** The ranking *)

Lemma np_median_Num (l : list nat) : l ≠ [] → ∃ q, np_median l = Num q.
Proof.
  intros Hl. unfold np_median.
  destruct (median_of _) as [q| |] eqn:Hm; [by exists q| |].
  - unfold median_of in Hm. case_decide; [done|]. by destruct (Nat.odd _).
  - apply median_of_NA in Hm. by destruct l.
Qed.

Lemma insert_item_perm x l : insert_item x l ≡ₚ x :: l.
Proof.
  induction l as [|y l IH]; simpl; [done|].
  destruct (float_lt _ _); [|done].
  rewrite IH. apply Permutation_swap.
Qed.

Lemma sorted_feature_drop_counts_perm items :
  sorted_feature_drop_counts items ≡ₚ items.
Proof.
  induction items as [|x items IH]; simpl; [done|].
  by rewrite insert_item_perm, IH.
Qed.

Lemma insert_item_sorted x l :
  x.2 ≠ [] → Forall (λ it : string * list nat, it.2 ≠ []) l →
  Sorted (λ a b : string * list nat, median_le a.2 b.2) l →
  Sorted (λ a b : string * list nat, median_le a.2 b.2) (insert_item x l).
Proof.
  intros Hx Hl Hs. induction Hs as [|y l Hs IH Hhd]; simpl.
  - by repeat constructor.
  - apply Forall_cons in Hl as [Hy Hl].
    destruct (np_median_Num _ Hx) as [qx Hqx].
    destruct (np_median_Num _ Hy) as [qy Hqy].
    rewrite Hqx, Hqy. simpl.
    destruct (Qle_bool qx qy) eqn:Hle; simpl.
    + apply Qle_bool_iff in Hle. constructor; [by constructor|].
      constructor. unfold median_le. by rewrite Hqx, Hqy.
    + assert (qy <= qx)%Q as Hyx.
      { apply Qlt_le_weak, Qnot_le_lt. intros H%Qle_bool_iff. congruence. }
      constructor; [by apply IH|].
      destruct Hhd as [|z l' Hyz]; simpl.
      * constructor. unfold median_le. by rewrite Hqx, Hqy.
      * destruct (float_lt _ _); constructor; [done|].
        unfold median_le. by rewrite Hqx, Hqy.
Qed.

Lemma insert_item_filter (q : Q) x l :
  filter (λ it, has_median q it = true) (insert_item x l)
  = filter (λ it, has_median q it = true) (x :: l).
Proof.
  induction l as [|y l IH]; simpl; [done|].
  destruct (float_lt (np_median y.2) (np_median x.2)) eqn:Hlt; [|done].
  rewrite (filter_cons _ y), IH, !(filter_cons _ x), (filter_cons _ y).
  destruct (decide (has_median q x = true)) as [Hqx|Hqx]; [|done].
  destruct (decide (has_median q y = true)) as [Hqy|Hqy]; [|done].
  exfalso. unfold has_median, float_lt in *.
  destruct (np_median x.2) as [a| |]; try done.
  destruct (np_median y.2) as [b| |]; try done.
  apply Qeq_bool_iff in Hqx, Hqy. apply negb_true_iff in Hlt.
  assert (Qle_bool a b = true); [|congruence].
  apply Qle_bool_iff. rewrite Hqx, Hqy. apply Qle_refl.
Qed.

(** X17. When the record has at least one feature and no sequence is
    empty, the ranking cell returns the names and the sequences of the
    items sorted by the median of the sequence: the sorted items are a
    rearrangement of the items, their medians do not decrease, and items
    with the same median keep the order they had in the record. *)
Theorem ranking_sorts_by_median (items : list (string * list nat)) :
  items ≠ [] →
  Forall (λ it : string * list nat, it.2 ≠ []) items →
  ∃ sorted : list (string * list nat),
    ranking items = Ok (sorted.*1, sorted.*2)
    ∧ sorted ≡ₚ items
    ∧ Sorted (λ a b : string * list nat, median_le a.2 b.2) sorted
    ∧ ∀ q : Q, filter (λ it, has_median q it = true) sorted
               = filter (λ it, has_median q it = true) items.
Proof.
  intros Hne Hall. exists (sorted_feature_drop_counts items).
  split; [|split; [apply sorted_feature_drop_counts_perm|split]].
  - unfold ranking.
    destruct (sorted_feature_drop_counts items) eqn:Hs; [|done].
    pose proof (sorted_feature_drop_counts_perm items) as Hp.
    rewrite Hs in Hp. apply Permutation_nil_l in Hp. done.
  - clear Hne. induction Hall as [|x items Hx Hall IH]; simpl; [constructor|].
    apply insert_item_sorted; [done| |done].
    by rewrite sorted_feature_drop_counts_perm.
  - intros q. clear. induction items as [|x items IH]; [done|].
    simpl. rewrite insert_item_filter, !(filter_cons _ x), IH. done.
Qed.

(** ** The export script *)

Lemma string_length_app (s t : string) :
  String.length (s +:+ t) = String.length s + String.length t.
Proof. induction s as [|c s IH]; simpl; [done|]. by rewrite IH. Qed.

Lemma tmp_name_ne (f : string) : (f +:+ ".tmp")%string ≠ f.
Proof.
  intros Heq. apply (f_equal String.length) in Heq.
  rewrite string_length_app in Heq. simpl in Heq. lia.
Qed.

(** X18. Without a git root the script stops with status 1, says so on the
    error stream and leaves every file as it was.  With a git root it ends
    with status 0 whatever [conda] printed; the environment file then holds
    the lines [conda] printed that do not start with "prefix", in their
    order; the temporary file is gone (also when one was there before);
    every other file is as it was. *)
Theorem conda_env_export_outcome
    (git_root : string) (conda_output : list string)
    (fs : gmap string (list string)) :
  let environment_file := (git_root +:+ "/environment.yml")%string in
  let out := conda_env_export git_root conda_output fs in
  (git_root = ""%string
   ∧ exit_status out = 1
   ∧ stdout out = []
   ∧ stderr out = ["Error: Git repository root not found."%string]
   ∧ files out = fs)
  ∨ (git_root ≠ ""%string
     ∧ exit_status out = 0
     ∧ stderr out = []
     ∧ files out !! environment_file
       = Some (filter (λ l, String.prefix "prefix" l = false) conda_output)
     ∧ files out !! (environment_file +:+ ".tmp")%string = None
     ∧ (∀ path, path ≠ environment_file →
                path ≠ (environment_file +:+ ".tmp")%string →
                files out !! path = fs !! path)).
Proof.
  intros environment_file out. subst out.
  destruct (decide (git_root = ""%string)) as [->|Hroot]; [by left|right].
  unfold conda_env_export. rewrite decide_True by done. simpl.
  fold environment_file.
  pose proof (tmp_name_ne environment_file) as Htmp.
  unfold mv, grep_invert_prefix.
  rewrite lookup_insert_eq. simpl.
  rewrite lookup_insert_eq.
  split; [done|]. split; [done|]. split; [done|].
  split; [by rewrite lookup_insert_eq|].
  split.
  - by rewrite lookup_insert_ne, lookup_delete_eq.
  - intros path Hp1 Hp2.
    by rewrite lookup_insert_ne, lookup_delete_ne, !lookup_insert_ne.
Qed.

(** * The further properties on concrete inputs *)

Example build_kmers_notebook :
  String.string_of_list_ascii
    <$> build_kmers (String.list_ascii_of_string "GTGCCCAGGTTCAGTGA") 3
  = ["GTG"; "TGC"; "GCC"; "CCC"; "CCA"; "CAG"; "AGG"; "GGT"; "GTT"; "TTC";
     "TCA"; "CAG"; "AGT"; "GTG"; "TGA"]%string.
Proof. reflexivity. Qed.

Lemma build_kmers_windows_witness :
  length (build_kmers gattaca (Z.of_nat 3)) = length gattaca - 3 + 1
  ∧ ∀ i, i ≤ length gattaca - 3 →
      ∃ w, build_kmers gattaca (Z.of_nat 3) !! i = Some w
           ∧ w = take 3 (drop i gattaca)
           ∧ length w = 3.
Proof. apply build_kmers_windows. vm_compute. lia. Defined.

Lemma build_kmers_too_long_witness : build_kmers gattaca 8 = [].
Proof. apply build_kmers_too_long. vm_compute. reflexivity. Defined.

Lemma build_kmers_reconstruct_witness :
  ∃ w ws,
    build_kmers gattaca (Z.of_nat 3) = w :: ws
    ∧ length w = 3
    ∧ gattaca = w ++ omap last ws.
Proof. apply build_kmers_reconstruct; vm_compute; lia. Defined.

Lemma build_kmers_overlap_witness :
  drop 1 (String.list_ascii_of_string "GAT")
  = take (3 - 1) (String.list_ascii_of_string "ATT").
Proof.
  apply (build_kmers_overlap gattaca 3 0); reflexivity.
Defined.

Lemma build_kmers_negative_witness :
  build_kmers gattaca (-2)
  = ((λ i, take (length gattaca - Z.to_nat (- -2)) (drop i gattaca))
       <$> seq 0 (Z.to_nat (- -2)))
    ++ replicate (length gattaca + 1) [].
Proof. apply build_kmers_negative. lia. Defined.

Lemma count_nans_after_impute_dataset_witness :
  ∃ imputed : DataFrame,
    impute_dataset Toy.gaps = Ok imputed
    ∧ count_nans imputed
      = NanHeading
        :: omap (λ c : string * list cell,
                   if all_missing c.2 then Some (NanCount c.1 (length c.2))
                   else None) Toy.gaps.
Proof.
  apply count_nans_after_impute_dataset; [compute_done | reflexivity].
Defined.

(** Before the imputation [count_nans] lists the two columns with a gap,
    after it none. *)
Example count_nans_toy :
  count_nans Toy.gaps = [NanHeading; NanCount "age" 1; NanCount "bmi" 1]
  ∧ (count_nans <$> match impute_dataset Toy.gaps with
                    | Ok imputed => Some imputed
                    | Raise _ => None
                    end) = Some [NanHeading].
Proof. split; reflexivity. Qed.

Lemma impute_dataset_idempotent_witness :
  ∃ imputed : DataFrame,
    impute_dataset Toy.gaps = Ok imputed
    ∧ impute_dataset imputed = Ok imputed.
Proof.
  apply impute_dataset_idempotent; [compute_done | reflexivity].
Defined.

Lemma remove_redundant_features_keeps_the_rest_witness :
  ∃ (labels : Series) (rest : DataFrame),
    remove_redundant_features Toy.dataset = Ok (labels, rest)
    ∧ assoc "ldl_cholesterin_reduction"%string Toy.dataset = Some labels
    ∧ rest `sublist_of` Toy.dataset
    ∧ (∀ c, c ∈ rest ↔ c ∈ Toy.dataset ∧ c.1 ∉ redundant_features)
    ∧ "ldl_cholesterin_reduction"%string ∉ columns rest.
Proof.
  apply remove_redundant_features_keeps_the_rest.
  apply Forall_forall. compute_done.
Defined.

Lemma remove_redundant_features_missing_column_witness :
  remove_redundant_features Toy.gaps
  = if decide ("ldl_cholesterin_reduction"%string ∈ columns Toy.gaps)
    then Raise KeyError
    else Raise AttributeError.
Proof.
  apply (remove_redundant_features_missing_column Toy.gaps "diet_carb");
    compute_done.
Defined.

Lemma avg_random_forest_fit_predict_is_mean_witness :
  ∃ (fits : list (pynum * pynum * ImportanceFrame)) (w' : @World Toy.library),
    fit_chain (Z.to_nat 3) Toy.X0 Toy.X0 Toy.y0 Toy.y0 20 1 Toy.world0
    = (fits, w')
    ∧ length fits = Z.to_nat 3
    ∧ avg_random_forest_fit_predict Toy.X0 Toy.X0 Toy.y0 Toy.y0 20 1 3
        Toy.world0
      = Ok ((PyFloat (Qsum ((λ r, to_Q r.1.1) <$> fits) / inject_Z 3),
             PyFloat (Qsum ((λ r, to_Q r.1.2) <$> fits) / inject_Z 3),
             {| index := columns Toy.X0;
                feature_importance :=
                  map (λ x, x / inject_Z 3)%Q
                      (vector_sum (length Toy.X0)
                         ((λ r, feature_importance r.2) <$> fits)) |}),
            w').
Proof.
  apply (avg_random_forest_fit_predict_is_mean (C := toy_contract)). lia.
Defined.

Lemma avg_random_forest_fit_predict_negative_iterations_witness :
  ∃ (a b : Q) (fi : ImportanceFrame),
    avg_random_forest_fit_predict (L := Toy.library)
      Toy.X0 Toy.X0 Toy.y0 Toy.y0 20 1 (-1) Toy.world0
    = Ok ((PyFloat a, PyFloat b, fi), Toy.world0)
    ∧ (a == 0)%Q ∧ (b == 0)%Q
    ∧ index fi = columns Toy.X0
    ∧ length (feature_importance fi) = length Toy.X0
    ∧ Forall (λ x, x == 0)%Q (feature_importance fi).
Proof.
  apply avg_random_forest_fit_predict_negative_iterations. lia.
Defined.

Lemma multisplit_avg_random_forest_fit_predict_zero_iterations_witness :
  multisplit_avg_random_forest_fit_predict (L := Toy.library)
    Toy.X0 Toy.y0 20 1 0 3 Toy.world0
  = Raise ZeroDivisionError.
Proof.
  apply multisplit_avg_random_forest_fit_predict_zero_iterations.
  right. lia.
Defined.


Lemma drop_feature_experiment_cost_witness :
  ∃ (d : gmap string (list nat)) (w' : @World Toy.library) (tr : list event),
    drop_feature_experiment Toy.world0 = Ok (d, w')
    ∧ history w' = history Toy.world0 ++ tr
    ∧ length (fit_inputs tr) = 25 * length (columns Toy.preprocessed)
    ∧ length <$> drop 1 (split_inputs tr)
      = reverse (seq 1 (length (columns Toy.preprocessed))) ≫= replicate 5.
Proof.
  apply (drop_feature_experiment_cost (C := toy_contract)
           Toy.dataset Toy.preprocessed Toy.labels);
    [reflexivity | vm_compute; reflexivity | compute_done].
Defined.

Lemma avg_drop_feature_experiment_trace_witness :
  ∃ (feature_drop_counts : gmap string (list nat)) (w' : @World Toy.library)
    (tr : list event),
    avg_drop_feature_experiment 2 Toy.world0 = Ok (feature_drop_counts, w')
    ∧ history w' = history Toy.world0 ++ tr
    ∧ experiment_lines tr = (λ i, (Z.of_nat i, 2%Z)) <$> seq 1 (Z.to_nat 2)
    ∧ length (split_outputs tr)
      = Z.to_nat 2 * (1 + 5 * length (columns Toy.preprocessed))
    ∧ length (fit_inputs tr)
      = Z.to_nat 2 * (25 * length (columns Toy.preprocessed)).
Proof.
  apply (avg_drop_feature_experiment_trace (C := toy_contract)
           Toy.dataset Toy.preprocessed Toy.labels);
    [reflexivity | vm_compute; reflexivity | compute_done | lia].
Defined.

Lemma avg_drop_feature_experiment_no_runs_witness :
  avg_drop_feature_experiment (L := Toy.library) 0 Toy.world0
  = Ok (∅, Toy.world0)
  ∧ ranking (map_to_list (∅ : gmap string (list nat))) = Raise ValueError.
Proof. apply avg_drop_feature_experiment_no_runs. lia. Defined.

Example ranking_toy :
  ranking toy_items
  = Ok (["bmi"; "hdl"; "age"; "sex"]%string, [[0; 0]; [0]; [3; 1]; [2; 2]]).
Proof. reflexivity. Qed.

Lemma ranking_sorts_by_median_witness :
  ∃ sorted : list (string * list nat),
    ranking toy_items = Ok (sorted.*1, sorted.*2)
    ∧ sorted ≡ₚ toy_items
    ∧ Sorted (λ a b : string * list nat, median_le a.2 b.2) sorted
    ∧ ∀ q : Q, filter (λ it, has_median q it = true) sorted
               = filter (λ it, has_median q it = true) toy_items.
Proof.
  apply ranking_sorts_by_median; [discriminate|].
  repeat constructor; discriminate.
Defined.

Example conda_env_export_toy :
  let out := conda_env_export "/repo"
               ["name: amlg"; "prefix: /home/alice/envs/amlg"; "dependencies:"]
               {[ "/repo/environment.yml"%string := ["old"%string];
                  "/repo/README.md"%string := ["readme"%string] ]} in
  map_to_list (files out)
  ≡ₚ [("/repo/environment.yml", ["name: amlg"; "dependencies:"]);
      ("/repo/README.md", ["readme"])]%string
  ∧ stdout out = ["Git repository root found: /repo";
                  "Updated environment file: /repo/environment.yml"]%string.
Proof.
  simpl. split; [|reflexivity]. vm_compute.
  apply Permutation_swap || reflexivity.
Qed.
